(** * STLViewer: camera fitting and resource lifecycle

    A shallow embedding of [src/app/components/STLViewer.tsx].

    The component is a single React effect that wires three.js objects
    together.  Two things in it carry logic:

    - the load-success callback, which centres the mesh and fits the
      camera and its clipping planes to the mesh's bounding box;
    - the lifecycle: the effect body (initialisation), the cleanup it
      returns (teardown), the self-rescheduling [animate] loop and the
      loader callbacks, all of which communicate through three refs, two
      state cells and the objects captured by the closures of one effect
      run.

    JavaScript numbers are modelled as real numbers: [Math.sin], [Math.PI],
    [Math.abs] and [Math.max] are [sin], [PI], [Rabs] and [Rmax].  Rounding
    of IEEE doubles is therefore not part of the model. *)

From Stdlib Require Import Reals Lra Lia.
From stdpp Require Import gmap.
From Stdlib Require Import String.

(* ===================================================================== *)
(** * Part I: definitions *)
(* ===================================================================== *)

(** ** The three.js objects the component uses

    three.js is an external dependency; the definitions below follow its
    documented behaviour for the handful of methods the component calls. *)

Module THREE.
Local Open Scope R_scope.

Record Vector3 := vec3 { x : R; y : R; z : R }.

Definition origin : Vector3 := vec3 0 0 0.

Definition addVectors (a b : Vector3) : Vector3 :=
  vec3 (x a + x b) (y a + y b) (z a + z b).

Definition subVectors (a b : Vector3) : Vector3 :=
  vec3 (x a - x b) (y a - y b) (z a - z b).

Definition multiplyScalar (a : Vector3) (s : R) : Vector3 :=
  vec3 (x a * s) (y a * s) (z a * s).

(** [Vector3.min] and [Vector3.max]: componentwise. *)
Definition vmin (a b : Vector3) : Vector3 :=
  vec3 (Rmin (x a) (x b)) (Rmin (y a) (y b)) (Rmin (z a) (z b)).

Definition vmax (a b : Vector3) : Vector3 :=
  vec3 (Rmax (x a) (x b)) (Rmax (y a) (y b)) (Rmax (z a) (z b)).

(** A [BufferGeometry] is represented by its position attribute: the list
    of vertices of the triangle soup read from the STL file. *)
Definition BufferGeometry := list Vector3.

(** [Box3].  three.js encodes the empty box as [min = +Infinity],
    [max = -Infinity]; here it is a constructor of its own. *)
Inductive Box3 :=
| makeEmpty
| box (min max : Vector3).

Definition expandByPoint (b : Box3) (p : Vector3) : Box3 :=
  match b with
  | makeEmpty => box p p
  | box lo hi => box (vmin lo p) (vmax hi p)
  end.

(** [geometry.computeBoundingBox()]: start from the empty box and expand it
    by every vertex. *)
Definition computeBoundingBox (g : BufferGeometry) : Box3 :=
  fold_left expandByPoint g makeEmpty.

(** [box.getCenter(target)]: the origin for the empty box, the midpoint of
    the two corners otherwise. *)
Definition getCenter (b : Box3) : Vector3 :=
  match b with
  | makeEmpty => origin
  | box lo hi => multiplyScalar (addVectors lo hi) 0.5
  end.

(** [box.getSize(target)]: zero for the empty box. *)
Definition getSize (b : Box3) : Vector3 :=
  match b with
  | makeEmpty => origin
  | box lo hi => subVectors hi lo
  end.

Record PerspectiveCamera := mkCamera {
  fov : R;              (* vertical field of view, degrees *)
  aspect : R;
  near : R;
  far : R;
  position : Vector3
}.

(** [new THREE.PerspectiveCamera(fov, aspect, near, far)]; a new object
    sits at the origin. *)
Definition newPerspectiveCamera (fov aspect near far : R) : PerspectiveCamera :=
  mkCamera fov aspect near far origin.

Record MeshPhongMaterial := mkMaterial {
  color : string;
  specular : Z;
  shininess : R
}.

Inductive Object3D :=
| AmbientLight (color : Z) (intensity : R)
| DirectionalLight (color : Z) (intensity : R) (position : Vector3)
| Mesh (geometry : BufferGeometry) (material : MeshPhongMaterial)
       (position : Vector3).

Definition isMesh (o : Object3D) : bool :=
  match o with Mesh _ _ _ => true | _ => false end.

Record Scene := mkScene {
  background : string;
  children : list Object3D
}.

Definition add (s : Scene) (o : Object3D) : Scene :=
  mkScene (background s) (children s ++ [o]).

Definition clear (s : Scene) : Scene :=
  mkScene (background s) [].

Record WebGLRenderer := mkRenderer {
  r_size : R * R;
  pixelRatio : R;
  r_disposed : bool;
  (* what the last [render(scene, camera)] call drew *)
  rendered : option (list Object3D * PerspectiveCamera)
}.

Record OrbitControls := mkControls {
  enableDamping : bool;
  dampingFactor : R;
  enableZoom : bool;
  c_disposed : bool;
  updates : nat         (* number of [update()] calls so far *)
}.

End THREE.

(** ** The load-success computation (STLViewer.tsx, lines 94-123) *)

Module Fit.
Import THREE.
Local Open Scope R_scope.

(** [Math.max(size.x, size.y, size.z)] of the bounding box. *)
Definition maxDim (g : BufferGeometry) : R :=
  let size := getSize (computeBoundingBox g) in
  Rmax (Rmax (x size) (y size)) (z size).

(** [mesh.position.set(-center.x, -center.y, -center.z)]. *)
Definition meshPosition (g : BufferGeometry) : Vector3 :=
  let center := getCenter (computeBoundingBox g) in
  vec3 (- x center) (- y center) (- z center).

(** [camera.fov * (Math.PI / 180)]. *)
Definition fovRadians (fovDeg : R) : R := fovDeg * (PI / 180).

(** [Math.abs(maxDim / Math.sin(fov / 2))]. *)
Definition cameraZ (fovDeg maxDim : R) : R :=
  Rabs (maxDim / sin (fovRadians fovDeg / 2)).

Definition nearPlaneFactor : R := 0.01.

(** [Math.max(maxDim * nearPlaneFactor, 0.1)]. *)
Definition nearPlane (maxDim : R) : R := Rmax (maxDim * nearPlaneFactor) 0.1.

Definition farPlaneFactor : R := 2.

(** [cameraToFarPoint * farPlaneFactor] with
    [cameraToFarPoint = cameraZ + maxDim / 2]. *)
Definition farPlane (fovDeg maxDim : R) : R :=
  let cameraToFarPoint := cameraZ fovDeg maxDim + maxDim / 2 in
  cameraToFarPoint * farPlaneFactor.

(** The camera after the callback: [position.z], [near] and [far] are
    overwritten, everything else is kept. *)
Definition fitCamera (g : BufferGeometry) (camera : PerspectiveCamera)
  : PerspectiveCamera :=
  let m := maxDim g in
  let p := position camera in
  mkCamera (fov camera) (aspect camera)
           (nearPlane m)
           (farPlane (fov camera) m)
           (vec3 (x p) (y p) (cameraZ (fov camera) m * 1.5)).

(** Vertices of the mesh as placed in the scene: the geometry's vertices
    moved by the mesh's position. *)
Definition worldVertices (g : BufferGeometry) (pos : Vector3) : list Vector3 :=
  map (fun v => addVectors v pos) g.

(** The axis-aligned cube with the given centre and edge length. *)
Definition cube (c : Vector3) (edge : R) : BufferGeometry :=
  let h := edge / 2 in
  [ vec3 (x c - h) (y c - h) (z c - h); vec3 (x c + h) (y c - h) (z c - h);
    vec3 (x c - h) (y c + h) (z c - h); vec3 (x c + h) (y c + h) (z c - h);
    vec3 (x c - h) (y c - h) (z c + h); vec3 (x c + h) (y c - h) (z c + h);
    vec3 (x c - h) (y c + h) (z c + h); vec3 (x c + h) (y c + h) (z c + h) ].

(** "Approximately", for figures quoted to two decimals. *)
Definition approx (a b : R) : Prop := Rabs (a - b) <= 0.005.

(** A box whose corners are in order, as expansion produces them. *)
Definition ordered (b : Box3) : Prop :=
  match b with
  | makeEmpty => True
  | box lo hi => x lo <= x hi /\ y lo <= y hi /\ z lo <= z hi
  end.

(** The box moved by [t]. *)
Definition translate (t : Vector3) (b : Box3) : Box3 :=
  match b with
  | makeEmpty => makeEmpty
  | box lo hi => box (addVectors lo t) (addVectors hi t)
  end.

End Fit.

(** ** The component (STLViewer.tsx, lines 16-180) *)

Module Viewer.
Import THREE.

(** Props, with the defaults of the destructuring pattern applied by the
    caller. *)
Record STLViewerProps := mkProps {
  url : string;
  width : R;
  height : R;
  backgroundColor : string;
  modelColor : string
}.

(** What the loader hands to the error callback. *)
Inductive ErrorEvent :=
| HttpError (status : nat)          (* asset missing *)
| ParseError (message : string)     (* malformed file *)
| NetworkError (message : string).

Inductive LogEntry :=
| LogProgress (percent : R)
| LogError (prefix : string) (e : ErrorEvent).

(** State of the request started by [loader.load]. *)
Inductive LoadState := Pending | Loaded | Failed.

(** Everything one run of the effect allocates and its closures capture.
    Runs are numbered; the renderer, its canvas and the controls created by
    run [n] are identified by [n]. *)
Record Closure := mkClosure {
  scene : Scene;
  camera : PerspectiveCamera;
  renderer : WebGLRenderer;
  controls : OrbitControls;
  props : STLViewerProps;
  load : LoadState
}.

Inductive DOMException := NotFoundError.

Inductive Result (A : Type) :=
| Ok (a : A)
| Throw (e : DOMException).
Arguments Ok {A} a.
Arguments Throw {A} e.

Definition bind {A B} (r : Result A) (k : A -> Result B) : Result B :=
  match r with
  | Ok a => k a
  | Throw e => Throw e
  end.

Notation "x <- r ;; k" := (bind r (fun x => k))
  (at level 100, r at next level, right associativity).

(** The component instance together with the part of the browser it talks
    to.  Of the container's children only the canvases the effect appends
    are tracked; the overlays React renders into it are a function of the
    two state cells (see [overlays]).  The state cells are kept for the
    whole execution: what React does with a setter call after unmount is
    outside the component. *)
Record World := mkWorld {
  (* refs *)
  mountRef : option (list nat);      (* the container's canvases, or null *)
  rendererRef : option nat;
  controlsRef : option nat;
  animationFrameRef : option nat;
  (* useState cells *)
  loading : bool;
  error : option string;
  (* objects allocated by the effect runs so far *)
  heap : gmap nat Closure;
  next_id : nat;
  (* browser: frame requests (request id -> run whose [animate] is
     scheduled), console, display *)
  raf : gmap nat nat;
  next_raf : nat;
  console : list LogEntry;
  devicePixelRatio : R;
  (* React: the cleanup returned by the last effect run, if any *)
  destroy : option nat
}.

Definition set_mountRef v (w : World) : World :=
  mkWorld v (rendererRef w) (controlsRef w) (animationFrameRef w)
          (loading w) (error w) (heap w) (next_id w) (raf w) (next_raf w)
          (console w) (devicePixelRatio w) (destroy w).

Definition set_rendererRef v (w : World) : World :=
  mkWorld (mountRef w) v (controlsRef w) (animationFrameRef w)
          (loading w) (error w) (heap w) (next_id w) (raf w) (next_raf w)
          (console w) (devicePixelRatio w) (destroy w).

Definition set_controlsRef v (w : World) : World :=
  mkWorld (mountRef w) (rendererRef w) v (animationFrameRef w)
          (loading w) (error w) (heap w) (next_id w) (raf w) (next_raf w)
          (console w) (devicePixelRatio w) (destroy w).

Definition set_animationFrameRef v (w : World) : World :=
  mkWorld (mountRef w) (rendererRef w) (controlsRef w) v
          (loading w) (error w) (heap w) (next_id w) (raf w) (next_raf w)
          (console w) (devicePixelRatio w) (destroy w).

Definition setLoading v (w : World) : World :=
  mkWorld (mountRef w) (rendererRef w) (controlsRef w) (animationFrameRef w)
          v (error w) (heap w) (next_id w) (raf w) (next_raf w)
          (console w) (devicePixelRatio w) (destroy w).

Definition setError v (w : World) : World :=
  mkWorld (mountRef w) (rendererRef w) (controlsRef w) (animationFrameRef w)
          (loading w) (Some v) (heap w) (next_id w) (raf w) (next_raf w)
          (console w) (devicePixelRatio w) (destroy w).

Definition set_heap v (w : World) : World :=
  mkWorld (mountRef w) (rendererRef w) (controlsRef w) (animationFrameRef w)
          (loading w) (error w) v (next_id w) (raf w) (next_raf w)
          (console w) (devicePixelRatio w) (destroy w).

Definition set_next_id v (w : World) : World :=
  mkWorld (mountRef w) (rendererRef w) (controlsRef w) (animationFrameRef w)
          (loading w) (error w) (heap w) v (raf w) (next_raf w)
          (console w) (devicePixelRatio w) (destroy w).

Definition set_raf v n (w : World) : World :=
  mkWorld (mountRef w) (rendererRef w) (controlsRef w) (animationFrameRef w)
          (loading w) (error w) (heap w) (next_id w) v n
          (console w) (devicePixelRatio w) (destroy w).

Definition log (e : LogEntry) (w : World) : World :=
  mkWorld (mountRef w) (rendererRef w) (controlsRef w) (animationFrameRef w)
          (loading w) (error w) (heap w) (next_id w) (raf w) (next_raf w)
          (console w ++ [e]) (devicePixelRatio w) (destroy w).

Definition set_destroy v (w : World) : World :=
  mkWorld (mountRef w) (rendererRef w) (controlsRef w) (animationFrameRef w)
          (loading w) (error w) (heap w) (next_id w) (raf w) (next_raf w)
          (console w) (devicePixelRatio w) v.

(** Updates of the objects of one run, reached through a closure variable
    or through a ref holding the run's number. *)
Definition with_scene (f : Scene -> Scene) (c : Closure) : Closure :=
  mkClosure (f (scene c)) (camera c) (renderer c) (controls c) (props c) (load c).

Definition with_camera (f : PerspectiveCamera -> PerspectiveCamera)
  (c : Closure) : Closure :=
  mkClosure (scene c) (f (camera c)) (renderer c) (controls c) (props c) (load c).

Definition with_renderer (f : WebGLRenderer -> WebGLRenderer)
  (c : Closure) : Closure :=
  mkClosure (scene c) (camera c) (f (renderer c)) (controls c) (props c) (load c).

Definition with_controls (f : OrbitControls -> OrbitControls)
  (c : Closure) : Closure :=
  mkClosure (scene c) (camera c) (renderer c) (f (controls c)) (props c) (load c).

Definition with_load (l : LoadState) (c : Closure) : Closure :=
  mkClosure (scene c) (camera c) (renderer c) (controls c) (props c) l.

Definition modify (n : nat) (f : Closure -> Closure) (w : World) : World :=
  set_heap (alter f n (heap w)) w.

(** *** DOM and browser primitives *)

(** [node.contains(child)]. *)
Definition contains (kids : list nat) (canvas : nat) : bool :=
  bool_decide (canvas ∈ kids).

(** [node.removeChild(child)] throws [NotFoundError] when [child] is not
    a child of [node]. *)
Definition removeChild (kids : list nat) (canvas : nat) : Result (list nat) :=
  if contains kids canvas
  then Ok (filter (λ k, k ≠ canvas) kids)
  else Throw NotFoundError.

(** [node.appendChild(child)]: the child is detached from where it was and
    becomes the last child. *)
Definition appendChild (kids : list nat) (canvas : nat) : list nat :=
  filter (λ k, k ≠ canvas) kids ++ [canvas].

(** [cancelAnimationFrame(id)]: unknown or stale ids are ignored. *)
Definition cancelAnimationFrame (id : nat) (w : World) : World :=
  set_raf (delete id (raf w)) (next_raf w) w.

(** [requestAnimationFrame(animate)] from run [n]; returns the request
    id. *)
Definition requestAnimationFrame (n : nat) (w : World) : nat * World :=
  let id := next_raf w in
  (id, set_raf (<[id := n]> (raf w)) (S id) w).

Definition dispose_renderer (r : WebGLRenderer) : WebGLRenderer :=
  mkRenderer (r_size r) (pixelRatio r) true (rendered r).

Definition dispose_controls (c : OrbitControls) : OrbitControls :=
  mkControls (enableDamping c) (dampingFactor c) (enableZoom c) true (updates c).

Definition count_update (c : OrbitControls) : OrbitControls :=
  mkControls (enableDamping c) (dampingFactor c) (enableZoom c) (c_disposed c)
             (S (updates c)).

Definition moveCamera (mv : Vector3 -> Vector3) (cam : PerspectiveCamera)
  : PerspectiveCamera :=
  mkCamera (fov cam) (aspect cam) (near cam) (far cam) (mv (position cam)).

(** [controls.update()].  The controls of a run are bound to the camera of
    that run.  An update turns what the user did with pointer and wheel
    since the last one, and what damping carries over, into a new camera
    position around the target.  The spherical arithmetic of three.js is
    not reproduced: the new position is a function [mv] of the old one
    that the environment supplies, so every movement is possible.  Of
    the fields of the camera record an update changes the position only;
    the orientation it also sets is not part of the record. *)
Definition update_controls (mv : Vector3 -> Vector3) (c : Closure) : Closure :=
  with_camera (moveCamera mv) (with_controls count_update c).

Definition render (s : Scene) (cam : PerspectiveCamera) (r : WebGLRenderer)
  : WebGLRenderer :=
  mkRenderer (r_size r) (pixelRatio r) (r_disposed r) (Some (children s, cam)).

(** *** The lighting rig (lines 69-78) *)

Definition ambientLight : Object3D := AmbientLight 0x404040 1.5%R.

Definition directionalLight : Object3D :=
  DirectionalLight 0xffffff 0.8%R (vec3 1 1 1).

Definition backLight : Object3D :=
  DirectionalLight 0xffffff 0.5%R (vec3 (-1) (-1) (-1)).

Definition lights : list Object3D := [ambientLight; directionalLight; backLight].

(** *** The animation loop (lines 143-149) *)

Definition animate (n : nat) (mv : Vector3 -> Vector3) (w : World) : World :=
  let w1 :=
    match controlsRef w with
    | Some k => modify k (update_controls mv) w
    | None => w
    end in
  let w2 :=
    modify n (λ c, with_renderer (render (scene c) (camera c)) c) w1 in
  let '(id, w3) := requestAnimationFrame n w2 in
  set_animationFrameRef (Some id) w3.

(** *** The loader callbacks (lines 85-139) *)

Definition onLoad (n : nat) (geometry : BufferGeometry) (w : World) : World :=
  let w1 :=
    modify n (λ c,
      let material := mkMaterial (modelColor (props c)) 0x111111 200%R in
      let mesh := Mesh geometry material (Fit.meshPosition geometry) in
      with_load Loaded
        (with_scene (λ s, add s mesh)
           (with_camera (Fit.fitCamera geometry) c))) w in
  setLoading false w1.

Definition onProgress (loaded total : R) (w : World) : World :=
  log (LogProgress (loaded / total * 100)%R) w.

Definition onError (n : nat) (e : ErrorEvent) (w : World) : World :=
  let w1 := log (LogError "Error loading STL file:" e) w in
  let w2 := setError "Failed to load the 3D model." w1 in
  modify n (with_load Failed) (setLoading false w2).

(** *** Camera setup (lines 51-52) *)

Definition newCamera (p : STLViewerProps) : PerspectiveCamera :=
  let cam := newPerspectiveCamera 75 (width p / height p) 0.1 1000 in
  mkCamera (fov cam) (aspect cam) (near cam) (far cam)
           (vec3 (x (position cam)) (y (position cam)) 5).

(** *** The effect body (lines 32-152)

    Returns the new world and the cleanup the effect hands back to React:
    [None] for the early return, [Some n] for the closure of run [n]. *)

Definition initialize (p : STLViewerProps) (w : World)
  : Result (World * option nat) :=
  match mountRef w with
  | None => Ok (w, None)
  | Some kids =>
    (* Clear any existing content *)
    w1 <- match rendererRef w with
          | Some r =>
            kids' <- removeChild kids r ;;
            Ok (modify r (with_renderer dispose_renderer)
                  (set_mountRef (Some kids') w))
          | None => Ok w
          end ;;
    (* Cancel any ongoing animation frames *)
    let w2 :=
      match animationFrameRef w1 with
      | Some id => cancelAnimationFrame id w1
      | None => w1
      end in
    let n := next_id w2 in
    let scene := mkScene (backgroundColor p) [] in
    let camera := newCamera p in
    let renderer :=
      mkRenderer (width p, height p) (devicePixelRatio w2) false None in
    let controls := mkControls true 0.25%R true false 0 in
    let scene := add (add (add scene ambientLight) directionalLight) backLight in
    let w3 := set_next_id (S n) w2 in
    let w4 := set_rendererRef (Some n) w3 in
    let w5 :=
      match mountRef w4 with
      | Some kids => set_mountRef (Some (appendChild kids n)) w4
      | None => w4
      end in
    let w6 := set_controlsRef (Some n) w5 in
    let w7 :=
      set_heap (<[n := mkClosure scene camera renderer controls p Pending]>
                  (heap w6)) w6 in
    (* the controls were created a moment ago and have seen no input:
       their first update leaves the camera where it is *)
    Ok (animate n (λ position, position) w7, Some n)
  end.

(** *** The cleanup returned by run [n] (lines 154-179) *)

Definition teardown (n : nat) (w : World) : Result World :=
  let w1 :=
    match animationFrameRef w with
    | Some id => cancelAnimationFrame id w
    | None => w
    end in
  let w2 := modify n (with_scene clear) w1 in
  let w3 :=
    match controlsRef w2 with
    | Some k => set_controlsRef None (modify k (with_controls dispose_controls) w2)
    | None => w2
    end in
  match rendererRef w3 with
  | Some r =>
    let w4 := modify r (with_renderer dispose_renderer) w3 in
    w5 <- match mountRef w4 with
          | Some kids =>
            if contains kids r
            then kids' <- removeChild kids r ;; Ok (set_mountRef (Some kids') w4)
            else Ok w4
          | None => Ok w4
          end ;;
    Ok (set_rendererRef None w5)
  | None => Ok w3
  end.

(** *** What the component renders (lines 182-221) *)

Inductive Overlay :=
| LoadingOverlay
| ErrorOverlay (message : string).

(** [{loading && ...}] and [{error && ...}]: the empty string is falsy. *)
Definition overlays (w : World) : list Overlay :=
  (if loading w then [LoadingOverlay] else []) ++
  match error w with
  | Some msg => if decide (msg = EmptyString) then [] else [ErrorOverlay msg]
  | None => []
  end.

(** *** React and the browser as the component's environment

    React runs the effect after the first render and after every render in
    which a dependency changed, each time after running the cleanup the
    previous run returned; on unmount it detaches the ref and runs the last
    cleanup.  The browser fires requested frames and the loader completes
    each request at most once, whenever it likes.  The user drags and
    scrolls on the canvas; the controls of a run listen until they are
    disposed, and their handlers update at once.  A frame and an input
    event carry the camera movement the update makes of the input. *)

Inductive Event :=
| RunEffect (p : STLViewerProps)
| RunCleanup
| DetachRef
| Frame (id : nat) (mv : Vector3 -> Vector3)
| Input (n : nat) (mv : Vector3 -> Vector3)
| LoadProgress (loaded total : R)
| LoadSuccess (n : nat) (geometry : BufferGeometry)
| LoadFailure (n : nat) (e : ErrorEvent).

Definition pending (n : nat) (w : World) : bool :=
  match heap w !! n with
  | Some c => match load c with Pending => true | _ => false end
  | None => false
  end.

(** [None]: the environment cannot produce this event in this world. *)
Definition dispatch (ev : Event) (w : World) : option (Result World) :=
  match ev with
  | RunEffect p =>
    match destroy w with
    | None => Some (r <- initialize p w ;; Ok (set_destroy (snd r) (fst r)))
    | Some _ => None
    end
  | RunCleanup =>
    match destroy w with
    | Some n => Some (w' <- teardown n w ;; Ok (set_destroy None w'))
    | None => None
    end
  | DetachRef => Some (Ok (set_mountRef None w))
  | Frame id mv =>
    (* the browser takes the request off its queue and calls back *)
    match raf w !! id with
    | Some n => Some (Ok (animate n mv (cancelAnimationFrame id w)))
    | None => None
    end
  | Input n mv =>
    (* pointer or wheel on the canvas of run [n], whose controls listen *)
    match heap w !! n with
    | Some c =>
      if c_disposed (controls c) then None
      else Some (Ok (modify n (update_controls mv) w))
    | None => None
    end
  | LoadProgress loaded total => Some (Ok (onProgress loaded total w))
  | LoadSuccess n g =>
    if pending n w then Some (Ok (onLoad n g w)) else None
  | LoadFailure n e =>
    if pending n w then Some (Ok (onError n e w)) else None
  end.

Fixpoint run (evs : list Event) (w : World) : option (Result World) :=
  match evs with
  | [] => Some (Ok w)
  | ev :: evs' =>
    match dispatch ev w with
    | Some (Ok w') => run evs' w'
    | other => other
    end
  end.

(** The world before the first effect run: React has rendered the
    container and attached the ref. *)
Definition mounted (dpr : R) : World :=
  mkWorld (Some []) None None None true None ∅ 0 ∅ 1 [] dpr None.

Definition reachable (w : World) : Prop :=
  ∃ dpr evs, run evs (mounted dpr) = Some (Ok w).

(** The mesh of a run is present when its scene holds a [Mesh]. *)
Definition meshPresent (n : nat) (w : World) : bool :=
  match heap w !! n with
  | Some c => existsb isMesh (children (scene c))
  | None => false
  end.

Definition errorPresent (w : World) : bool :=
  match error w with Some _ => true | None => false end.

(** The props the demo page passes before it has measured the window
    (src/app/page.tsx). *)
Definition demoProps : STLViewerProps :=
  mkProps "/models/dcenter.stl" 600 400 "#f5f5f5" "#ffffff".

(** The viewer state a late callback of run [n] can touch: the scene and
    camera of that run and the two state cells. *)
Definition viewerState (n : nat) (w : World)
  : option (Scene * PerspectiveCamera) * bool * option string :=
  ((λ c, (scene c, camera c)) <$> heap w !! n, loading w, error w).

(** The world an event sequence leads to from the first render. *)
Definition after (evs : list Event) (dpr : R) : World :=
  match run evs (mounted dpr) with
  | Some (Ok w) => w
  | _ => mounted dpr
  end.

(** The demo page's viewer after its first effect run. *)
Definition liveWorld : World := after [RunEffect demoProps] 1.

(** *** The objects of a run at the stages of its life *)

(** The failure message shown to the user (line 137). *)
Definition failureMessage : string := "Failed to load the 3D model.".

(** As the effect body builds them. *)
Definition newClosure (p : STLViewerProps) (dpr : R) : Closure :=
  mkClosure (mkScene (backgroundColor p) lights) (newCamera p)
            (mkRenderer (width p, height p) dpr false None)
            (mkControls true 0.25%R true false 0) p Pending.

(** After the call of [animate] that ends the effect body. *)
Definition drawn (c : Closure) : Closure :=
  with_renderer (render (scene c) (camera c))
                (with_controls count_update c).

(** After a later call of [animate], in which the controls move the
    camera by [mv]. *)
Definition drawnBy (mv : Vector3 -> Vector3) (c : Closure) : Closure :=
  let c1 := update_controls mv c in
  with_renderer (render (scene c1) (camera c1)) c1.

(** After the success callback. *)
Definition loaded (g : BufferGeometry) (c : Closure) : Closure :=
  let material := mkMaterial (modelColor (props c)) 0x111111 200%R in
  let mesh := Mesh g material (Fit.meshPosition g) in
  with_load Loaded
    (with_scene (λ s, add s mesh) (with_camera (Fit.fitCamera g) c)).

(** The world right after the first effect run. *)
Definition firstWorld (p : STLViewerProps) (dpr : R) : World :=
  mkWorld (Some [0]) (Some 0) (Some 0) (Some 1) true None
          {[ 0 := drawn (newClosure p dpr) ]} 1 {[ 1 := 0 ]} 2 [] dpr (Some 0).

(** The world the cleanup of run [n] leaves: refs, frame queue, container
    and heap. *)
Definition torn (n : nat) (w : World) : World :=
  let h1 := alter (with_scene clear) n (heap w) in
  let h2 :=
    match controlsRef w with
    | Some k => alter (with_controls dispose_controls) k h1
    | None => h1
    end in
  let h3 :=
    match rendererRef w with
    | Some r => alter (with_renderer dispose_renderer) r h2
    | None => h2
    end in
  mkWorld
    (match rendererRef w, mountRef w with
     | Some r, Some kids =>
         Some (if contains kids r then filter (λ k, k ≠ r) kids else kids)
     | _, m => m
     end)
    None None (animationFrameRef w) (loading w) (error w) h3 (next_id w)
    (match animationFrameRef w with
     | Some id => delete id (raf w)
     | None => raf w
     end)
    (next_raf w) (console w) (devicePixelRatio w) (destroy w).

(** What holds between two events of any execution. *)
Record invariant (w : World) : Prop := mkInvariant {
  (* no effect run is active: nothing is held, nothing is scheduled *)
  inv_idle :
    destroy w = None ->
    rendererRef w = None /\ controlsRef w = None /\ raf w = ∅ /\
    (∀ kids, mountRef w = Some kids -> kids = []);
  (* run [n] is active: the refs hold its objects, its canvas is the only
     one in the container, and exactly one frame is requested *)
  inv_live :
    ∀ n, destroy w = Some n ->
    rendererRef w = Some n /\ controlsRef w = Some n /\
    (∃ f, animationFrameRef w = Some f /\ raf w = {[ f := n ]}) /\
    (∀ kids, mountRef w = Some kids -> kids = [n]) /\
    (∃ c, heap w !! n = Some c) /\
    (∀ c, heap w !! n = Some c -> load c ≠ Loaded ->
          children (scene c) = lights);
  (* a scene gets its mesh from its own run's success callback only *)
  inv_scene :
    ∀ n c, heap w !! n = Some c -> load c ≠ Loaded ->
    children (scene c) = lights \/ children (scene c) = []
}.

End Viewer.

(** ** The placed mesh as the camera sees it *)

Module Frustum.
Import THREE.
Local Open Scope R_scope.

(** A point lies within a box, corners included. *)
Definition inside (b : Box3) (v : Vector3) : Prop :=
  match b with
  | makeEmpty => False
  | box lo hi =>
      (x lo <= x v <= x hi) /\ (y lo <= y v <= y hi) /\ (z lo <= z v <= z hi)
  end.

(** Where a vertex of the geometry ends up in the scene. *)
Definition placed (g : BufferGeometry) (v : Vector3) : Vector3 :=
  addVectors v (Fit.meshPosition g).


End Frustum.

(** ** Bookkeeping across effect runs *)

Module Upkeep.
Import THREE Viewer.

(** The objects of a run after its cleanup. *)
Definition released (c : Closure) : Closure :=
  with_renderer dispose_renderer
    (with_controls dispose_controls (with_scene clear c)).

(** What every execution keeps about the objects it has allocated and
    about the two state cells. *)
Record upkeep (w : World) : Prop := mkUpkeep {
  (* run numbers are handed out in order *)
  up_fresh : ∀ n c, heap w !! n = Some c -> n < next_id w;
  (* the live run's renderer and controls are in use, all others are
     disposed *)
  up_disposed :
    ∀ n c, heap w !! n = Some c ->
    (destroy w = Some n ->
       r_disposed (renderer c) = false /\ c_disposed (controls c) = false) /\
    (destroy w ≠ Some n ->
       r_disposed (renderer c) = true /\ c_disposed (controls c) = true);
  (* nothing changes field of view or aspect, and only the success
     callback changes the clipping planes *)
  up_camera :
    ∀ n c, heap w !! n = Some c ->
    fov (camera c) = 75%R /\
    aspect (camera c) = (width (props c) / height (props c))%R /\
    (load c ≠ Loaded -> near (camera c) = 0.1%R /\ far (camera c) = 1000%R);
  (* the loading flag is up until the first request completes *)
  up_loading_on :
    loading w = true -> ∀ n c, heap w !! n = Some c -> load c = Pending;
  up_loading_off :
    loading w = false -> ∃ n c, heap w !! n = Some c /\ load c ≠ Pending;
  (* the error cell is set by, and only by, a failed request *)
  up_error :
    (error w = None /\ ∀ n c, heap w !! n = Some c -> load c ≠ Failed) \/
    (error w = Some failureMessage /\
     ∃ n c, heap w !! n = Some c /\ load c = Failed)
}.

(** An update of one run's objects that leaves requests alone, moves the
    camera at most, and does not change which renderers and controls are
    disposed. *)
Definition quiet (f : Closure -> Closure) : Prop :=
  ∀ c, load (f c) = load c /\ props (f c) = props c
       /\ fov (camera (f c)) = fov (camera c)
       /\ aspect (camera (f c)) = aspect (camera c)
       /\ near (camera (f c)) = near (camera c)
       /\ far (camera (f c)) = far (camera c)
       /\ r_disposed (renderer (f c)) = r_disposed (renderer c)
       /\ c_disposed (controls (f c)) = c_disposed (controls c).

End Upkeep.

(** ** The demo pages (src/app/page.tsx and its sibling) *)

Module Page.
Import THREE Viewer.

(** What distinguishes the two pages: the model and its colour. *)
Record Demo := mkDemo {
  demoUrl : string;
  demoColor : string
}.

(** src/app/page.tsx *)
Definition page : Demo := mkDemo "/models/dcenter.stl" "#ffffff".

(** The second page of the repository. *)
Definition stlPage : Demo := mkDemo "/models/4SHAUL.stl" "#00bcd4".

(** [useState(600)] and [useState(400)]; afterwards the cells hold
    [window.innerWidth] and [window.innerHeight], which are integers. *)
Record PageState := mkPage {
  viewerWidth : Z;
  viewerHeight : Z
}.

Definition initialPage : PageState := mkPage 600 400.

(** The page's effect: take the size of the window. *)
Definition measure (innerWidth innerHeight : Z) (s : PageState) : PageState :=
  mkPage innerWidth innerHeight.

(** The props the page renders the viewer with. *)
Definition viewerProps (d : Demo) (s : PageState) : STLViewerProps :=
  mkProps (demoUrl d) (IZR (viewerWidth s)) (IZR (viewerHeight s))
          "#f5f5f5" (demoColor d).

(** Whether a re-render leaves every dependency of the viewer's effect
    as it was: of [url, width, height, backgroundColor, modelColor] the
    page only ever changes [width] and [height]. *)
Definition sameDeps (s s' : PageState) : bool :=
  (viewerWidth s =? viewerWidth s')%Z && (viewerHeight s =? viewerHeight s')%Z.

(** What React makes of the page.  The viewer's effect runs with the
    initial size; the page's effect then stores the window size.  If that
    changes [width] or [height], the re-render makes the viewer's cleanup
    and effect run again; if the window is 600 by 400, nothing more
    happens. *)
Definition pageEvents (d : Demo) (innerWidth innerHeight : Z) : list Event :=
  let s := measure innerWidth innerHeight initialPage in
  RunEffect (viewerProps d initialPage) ::
  (if sameDeps initialPage s then []
   else [RunCleanup; RunEffect (viewerProps d s)]).

(** The viewer once the page has settled after a change of size: run 0
    torn down, run 1 live. *)
Definition settled (d : Demo) (dpr : R) (innerWidth innerHeight : Z) : World :=
  let p0 := viewerProps d initialPage in
  let p1 := viewerProps d (measure innerWidth innerHeight initialPage) in
  mkWorld (Some [1]) (Some 1) (Some 1) (Some 2) true None
          (<[ 1 := drawn (newClosure p1 dpr) ]>
             {[ 0 := Upkeep.released (drawn (newClosure p0 dpr)) ]})
          2 {[ 2 := 1 ]} 3 [] dpr (Some 1).

End Page.

(** ** The render loop over time *)

Module Loop.
Import THREE Viewer.

(** The browser fires the frame whose id the component holds; the
    controls move the camera by [mv]. *)
Definition tick (mv : Vector3 -> Vector3) (w : World) : option (Result World) :=
  match animationFrameRef w with
  | Some f => dispatch (Frame f mv) w
  | None => None
  end.

(** One frame after the other, one for each movement of the list. *)
Fixpoint ticks (mvs : list (Vector3 -> Vector3)) (w : World)
  : option (Result World) :=
  match mvs with
  | [] => Some (Ok w)
  | mv :: mvs' =>
    match tick mv w with
    | Some (Ok w') => ticks mvs' w'
    | other => other
    end
  end.

(** Where a sequence of movements takes a position. *)
Definition moved (mvs : list (Vector3 -> Vector3)) (p : Vector3) : Vector3 :=
  fold_left (λ q mv, mv q) mvs p.

End Loop.

(* ===================================================================== *)
(** * Part II: properties *)
(* ===================================================================== *)

(** ** Bounding boxes *)

Section BoundingBox.
Import THREE Fit.
Local Open Scope R_scope.

Lemma vector3_eq (a b : Vector3) :
  x a = x b -> y a = y b -> z a = z b -> a = b.
Proof. destruct a, b; simpl; intros; subst; reflexivity. Qed.

Lemma Rmin_shift a b t : Rmin (a + t) (b + t) = Rmin a b + t.
Proof. unfold Rmin. do 2 destruct (Rle_dec _ _); lra. Qed.

Lemma Rmax_shift a b t : Rmax (a + t) (b + t) = Rmax a b + t.
Proof. unfold Rmax. do 2 destruct (Rle_dec _ _); lra. Qed.

Lemma expandByPoint_ordered b p : ordered b -> ordered (expandByPoint b p).
Proof.
  destruct b as [|lo hi]; simpl.
  - intros _. repeat split; apply Rle_refl.
  - intros (Hx & Hy & Hz).
    repeat split;
      (eapply Rle_trans; [apply Rmin_l |];
       eapply Rle_trans; [| apply Rmax_l]; assumption).
Qed.

Lemma fold_expand_ordered g b :
  ordered b -> ordered (fold_left expandByPoint g b).
Proof.
  revert b. induction g as [|p g IH]; intros b Hb; simpl.
  - exact Hb.
  - apply IH, expandByPoint_ordered, Hb.
Qed.

Lemma computeBoundingBox_ordered g : ordered (computeBoundingBox g).
Proof. apply fold_expand_ordered. exact I. Qed.

Lemma maxDim_nonneg g : 0 <= maxDim g.
Proof.
  unfold maxDim. pose proof (computeBoundingBox_ordered g) as H.
  destruct (computeBoundingBox g) as [|lo hi]; simpl in *.
  - eapply Rle_trans; [| apply Rmax_r]. apply Rle_refl.
  - destruct H as (Hx & _).
    eapply Rle_trans; [| apply Rmax_l].
    eapply Rle_trans; [| apply Rmax_l]. lra.
Qed.

(** Moving every vertex by [t] moves the box by [t]. *)
Lemma expandByPoint_translate t b p :
  expandByPoint (translate t b) (addVectors p t)
  = translate t (expandByPoint b p).
Proof.
  destruct b as [|lo hi]; simpl; [reflexivity|].
  f_equal; apply vector3_eq; simpl;
    first [apply Rmin_shift | apply Rmax_shift].
Qed.

Lemma fold_expand_translate t g b :
  fold_left expandByPoint (worldVertices g t) (translate t b)
  = translate t (fold_left expandByPoint g b).
Proof.
  revert b. induction g as [|p g IH]; intros b; simpl; [reflexivity|].
  rewrite expandByPoint_translate. apply IH.
Qed.

Lemma computeBoundingBox_translate t g :
  computeBoundingBox (worldVertices g t) = translate t (computeBoundingBox g).
Proof. apply (fold_expand_translate t g makeEmpty). Qed.

Lemma center_cancels g :
  addVectors (getCenter (computeBoundingBox g)) (meshPosition g) = origin.
Proof.
  unfold meshPosition, addVectors, origin; simpl. f_equal; lra.
Qed.

Lemma centered_box_center g :
  getCenter (computeBoundingBox (worldVertices g (meshPosition g))) = origin.
Proof.
  rewrite computeBoundingBox_translate. unfold meshPosition.
  destruct (computeBoundingBox g) as [|lo hi]; simpl; [reflexivity|].
  unfold multiplyScalar, addVectors, origin; simpl. f_equal; lra.
Qed.

(** Resolve a [Rmin]/[Rmax] whose order [lra] can decide. *)
Ltac settle_minmax :=
  repeat match goal with
  | |- context [Rmin ?a ?b] =>
      first [ rewrite (Rmin_left a b) by lra | rewrite (Rmin_right a b) by lra ]
  | |- context [Rmax ?a ?b] =>
      first [ rewrite (Rmax_left a b) by lra | rewrite (Rmax_right a b) by lra ]
  end.

Lemma cube_box c e :
  0 <= e ->
  computeBoundingBox (cube c e)
  = box (vec3 (x c - e / 2) (y c - e / 2) (z c - e / 2))
        (vec3 (x c + e / 2) (y c + e / 2) (z c + e / 2)).
Proof.
  intros He. unfold computeBoundingBox, cube; simpl.
  unfold vmin, vmax; simpl. settle_minmax. reflexivity.
Qed.

Lemma cube_maxDim c e : 0 <= e -> maxDim (cube c e) = e.
Proof.
  intros He. unfold maxDim. rewrite cube_box by assumption. simpl.
  settle_minmax. lra.
Qed.

End BoundingBox.

(** ** The fit formulas at a 75 degree field of view *)

Section CameraFit.
Import THREE Fit.
Local Open Scope R_scope.

Lemma sqrt2_bounds : 1.4142 < sqrt 2 < 1.4143.
Proof.
  assert (H0 : 0 <= sqrt 2) by apply sqrt_pos.
  assert (H1 : sqrt 2 * sqrt 2 = 2) by (apply sqrt_sqrt; lra).
  split; nra.
Qed.

Lemma sqrt3_bounds : 1.7320 < sqrt 3 < 1.7321.
Proof.
  assert (H0 : 0 <= sqrt 3) by apply sqrt_pos.
  assert (H1 : sqrt 3 * sqrt 3 = 3) by (apply sqrt_sqrt; lra).
  split; nra.
Qed.

(** Half of 75 degrees lies strictly inside the first quadrant. *)
Lemma halfFov_range : 0 < fovRadians 75 / 2 < PI / 2.
Proof. unfold fovRadians. pose proof PI_RGT_0. lra. Qed.

Lemma sin_halfFov_pos : 0 < sin (fovRadians 75 / 2).
Proof.
  pose proof halfFov_range. pose proof PI_RGT_0. apply sin_gt_0; lra.
Qed.

(** 75 degrees is 45 + 30 degrees, whose cosine is known in closed form. *)
Lemma cos_fov : cos (2 * (fovRadians 75 / 2)) = (sqrt 3 - 1) / (2 * sqrt 2).
Proof.
  replace (2 * (fovRadians 75 / 2)) with (PI / 4 + PI / 6)
    by (unfold fovRadians; lra).
  rewrite cos_plus, cos_PI4, sin_PI4, cos_PI6, sin_PI6.
  pose proof sqrt2_bounds. field. lra.
Qed.

Lemma sin_halfFov_bounds : 0.6087 < sin (fovRadians 75 / 2) < 0.6088.
Proof.
  pose proof sin_halfFov_pos as Hs.
  pose proof (cos_2a_sin (fovRadians 75 / 2)) as H2. rewrite cos_fov in H2.
  pose proof sqrt2_bounds as [A1 A2]. pose proof sqrt3_bounds as [B1 B2].
  set (c := (sqrt 3 - 1) / (2 * sqrt 2)) in *.
  assert (Hc : c * (2 * sqrt 2) = sqrt 3 - 1) by (unfold c; field; lra).
  assert (Hc1 : 0.25875 < c < 0.25895) by (split; nra).
  split; nra.
Qed.

(** On a non-negative [maxDim] the absolute value is the identity. *)
Lemma cameraZ_nonneg m :
  0 <= m -> cameraZ 75 m = m / sin (fovRadians 75 / 2).
Proof.
  intros Hm. unfold cameraZ. apply Rabs_right.
  pose proof sin_halfFov_pos as Hs.
  apply Rle_ge, Rmult_le_pos; [assumption|].
  left. apply Rinv_0_lt_compat, Hs.
Qed.

Lemma farPlane_nonneg m :
  0 <= m ->
  farPlane 75 m = (m / sin (fovRadians 75 / 2) + m / 2) * 2.
Proof.
  intros Hm. unfold farPlane, farPlaneFactor.
  rewrite cameraZ_nonneg by assumption. reflexivity.
Qed.

(** The far plane is [maxDim] times a constant a little above 4.28. *)
Lemma farPlane_linear m :
  0 <= m -> farPlane 75 m = m * (2 / sin (fovRadians 75 / 2) + 1).
Proof.
  intros Hm. rewrite farPlane_nonneg by assumption.
  pose proof sin_halfFov_pos. field. lra.
Qed.

Lemma inv_sin_halfFov_bounds :
  1.6425 < / sin (fovRadians 75 / 2) < 1.6429.
Proof.
  pose proof sin_halfFov_bounds as [L U].
  assert (Hq : / sin (fovRadians 75 / 2) * sin (fovRadians 75 / 2) = 1)
    by (apply Rinv_l; lra).
  assert (Hp : 0 < / sin (fovRadians 75 / 2))
    by (apply Rinv_0_lt_compat; lra).
  split; nra.
Qed.

(** Below this model size the clamped near plane overtakes the far plane. *)
Lemma nearFar_threshold_bounds :
  0.0233 < 0.1 / (2 / sin (fovRadians 75 / 2) + 1) < 0.0234.
Proof.
  pose proof inv_sin_halfFov_bounds as [L U].
  set (q := / sin (fovRadians 75 / 2)) in *.
  replace (2 / sin (fovRadians 75 / 2)) with (2 * q) by (unfold q; reflexivity).
  assert (Hk : 0 < 2 * q + 1) by lra.
  assert (Ht : 0.1 / (2 * q + 1) * (2 * q + 1) = 0.1) by (field; lra).
  split; nra.
Qed.

Lemma fitCamera_75 g cam :
  fov cam = 75 ->
  z (position (fitCamera g cam))
    = 1.5 * (maxDim g / sin (fovRadians 75 / 2))
  /\ near (fitCamera g cam) = Rmax (maxDim g * 0.01) 0.1
  /\ far (fitCamera g cam)
    = (maxDim g / sin (fovRadians 75 / 2) + maxDim g / 2) * 2.
Proof.
  intros Hfov. pose proof (maxDim_nonneg g) as Hm.
  unfold fitCamera; simpl. rewrite Hfov.
  rewrite farPlane_nonneg, cameraZ_nonneg by assumption.
  repeat split. lra.
Qed.

End CameraFit.

(** ** The lifecycle, operation by operation *)

Section Operations.
Import THREE Viewer.

Lemma appendChild_nil (n : nat) : appendChild [] n = [n].
Proof. reflexivity. Qed.

Lemma contains_elem kids n : contains kids n = true <-> n ∈ kids.
Proof. unfold contains. apply bool_decide_eq_true. Qed.

Lemma removeChild_contained kids n :
  contains kids n = true ->
  removeChild kids n = Ok (filter (λ k, k ≠ n) kids).
Proof. intros H. unfold removeChild. rewrite H. reflexivity. Qed.

Lemma remove_only_child (n : nat) : filter (λ k, k ≠ n) [n] = [].
Proof.
  rewrite filter_cons. destruct (decide (n ≠ n)); [congruence | reflexivity].
Qed.

(** One call of [animate] by the run whose controls the ref holds. *)
Lemma animate_live n mv w :
  controlsRef w = Some n ->
  animate n mv w =
  mkWorld (mountRef w) (rendererRef w) (controlsRef w) (Some (next_raf w))
    (loading w) (error w) (alter (drawnBy mv) n (heap w)) (next_id w)
    (<[next_raf w := n]> (raf w)) (S (next_raf w)) (console w)
    (devicePixelRatio w) (destroy w).
Proof.
  intros H. destruct w; simpl in *; subst.
  unfold animate, modify, requestAnimationFrame; simpl.
  rewrite alter_alter_eq. reflexivity.
Qed.

(** The effect body when the container is there and no renderer is held. *)
Lemma initialize_idle p w kids :
  mountRef w = Some kids -> rendererRef w = None ->
  initialize p w =
  Ok (mkWorld (Some (appendChild kids (next_id w))) (Some (next_id w))
        (Some (next_id w)) (Some (next_raf w)) (loading w) (error w)
        (<[next_id w := drawn (newClosure p (devicePixelRatio w))]> (heap w))
        (S (next_id w))
        (<[next_raf w := next_id w]>
           (match animationFrameRef w with
            | Some id => delete id (raf w)
            | None => raf w
            end))
        (S (next_raf w)) (console w) (devicePixelRatio w) (destroy w),
      Some (next_id w)).
Proof.
  intros Hm Hr. destruct w; simpl in *; subst.
  unfold initialize; simpl.
  destruct animationFrameRef0; simpl;
    rewrite animate_live by reflexivity; simpl;
    rewrite alter_insert_eq; reflexivity.
Qed.

Lemma initialize_detached p w :
  mountRef w = None -> initialize p w = Ok (w, None).
Proof. intros H. unfold initialize. rewrite H. reflexivity. Qed.

(** The two callbacks, field by field. *)
Lemma onLoad_eq n g w :
  onLoad n g w =
  mkWorld (mountRef w) (rendererRef w) (controlsRef w) (animationFrameRef w)
    false (error w) (alter (loaded g) n (heap w)) (next_id w)
    (raf w) (next_raf w) (console w) (devicePixelRatio w) (destroy w).
Proof. reflexivity. Qed.

Lemma onError_eq n e w :
  onError n e w =
  mkWorld (mountRef w) (rendererRef w) (controlsRef w) (animationFrameRef w)
    false (Some "Failed to load the 3D model."%string)
    (alter (with_load Failed) n (heap w)) (next_id w)
    (raf w) (next_raf w)
    (console w ++ [LogError "Error loading STL file:" e])
    (devicePixelRatio w) (destroy w).
Proof. reflexivity. Qed.

Lemma onLoad_lookup n g w :
  heap (onLoad n g w) !! n = loaded g <$> heap w !! n.
Proof. rewrite onLoad_eq. cbn [heap]. apply lookup_alter_eq. Qed.

Lemma onError_lookup n e w :
  heap (onError n e w) !! n = with_load Failed <$> heap w !! n.
Proof. rewrite onError_eq. cbn [heap]. apply lookup_alter_eq. Qed.

Lemma pending_lookup n w :
  pending n w = true <-> ∃ c, heap w !! n = Some c /\ load c = Pending.
Proof.
  unfold pending. destruct (heap w !! n) as [c|].
  - destruct (load c) eqn:E; split; try discriminate; eauto.
    + intros (c' & Hc & Hl). injection Hc as <-. congruence.
    + intros (c' & Hc & Hl). injection Hc as <-. congruence.
  - split; [discriminate|]. intros (c & Hc & _). discriminate.
Qed.

Lemma teardown_eq n w : teardown n w = Ok (torn n w).
Proof.
  destruct w as [m r k a l e h i q j c d y]; unfold teardown, torn; simpl.
  destruct a, k, r; simpl; try reflexivity;
    destruct m as [kids|]; simpl; try reflexivity;
    unfold removeChild; destruct (contains kids _); reflexivity.
Qed.

End Operations.

(** ** The invariant is kept by every event *)

Section Invariant.
Import THREE Viewer.

Lemma alter_keeps (Q : list Object3D -> Prop) (f : Closure -> Closure)
  (m n : nat) (h : gmap nat Closure) :
  (∀ c, h !! m = Some c -> load (f c) ≠ Loaded ->
        load c ≠ Loaded /\ children (scene (f c)) = children (scene c)) ->
  (∀ c, h !! n = Some c -> load c ≠ Loaded -> Q (children (scene c))) ->
  ∀ c, alter f m h !! n = Some c -> load c ≠ Loaded -> Q (children (scene c)).
Proof.
  intros Hf Hh c Hc Hl. destruct (decide (m = n)) as [->|Hne].
  - rewrite lookup_alter_eq in Hc.
    destruct (h !! n) as [c0|] eqn:E; simpl in Hc; [|discriminate].
    injection Hc as <-. destruct (Hf c0 eq_refl Hl) as [Hl0 ->].
    apply Hh; [reflexivity | assumption].
  - rewrite lookup_alter_ne in Hc by assumption. apply Hh; assumption.
Qed.

Lemma alter_defined (f : Closure -> Closure) (m n : nat)
  (h : gmap nat Closure) :
  (∃ c, h !! n = Some c) -> ∃ c, alter f m h !! n = Some c.
Proof.
  intros [c Hc]. destruct (decide (m = n)) as [->|Hne].
  - exists (f c). rewrite lookup_alter_eq, Hc. reflexivity.
  - exists c. rewrite lookup_alter_ne by assumption. exact Hc.
Qed.

Lemma invariant_mounted dpr : invariant (mounted dpr).
Proof.
  split; simpl.
  - intros _. repeat split; try reflexivity. intros kids [= <-]. reflexivity.
  - intros n [=].
  - intros n c H. rewrite lookup_empty in H. discriminate.
Qed.

Lemma invariant_effect p w r :
  invariant w -> dispatch (RunEffect p) w = Some r ->
  ∃ w', r = Ok w' /\ invariant w'.
Proof.
  intros [Hidle Hlive Hscene] Hd. simpl in Hd.
  destruct (destroy w) eqn:Ed; [discriminate|].
  destruct (Hidle eq_refl) as (Hr & Hc & Hq & Hk). injection Hd as <-.
  destruct (mountRef w) as [kids|] eqn:Em.
  - rewrite (Hk kids eq_refl) in Em.
    rewrite (initialize_idle p w [] Em Hr). simpl.
    eexists; split; [reflexivity|]. split; simpl.
    + intros [=].
    + intros n [= <-]. rewrite Hq.
      repeat split.
      * exists (next_raf w). split; [reflexivity|].
        destruct (animationFrameRef w);
          rewrite ?delete_empty; apply insert_empty.
      * intros kids' [= <-]. reflexivity.
      * rewrite lookup_insert_eq. eauto.
      * intros c. rewrite lookup_insert_eq. intros [= <-] _. reflexivity.
    + intros n c Hn Hl. destruct (decide (next_id w = n)) as [<-|Hne].
      * rewrite lookup_insert_eq in Hn. injection Hn as <-. left. reflexivity.
      * rewrite lookup_insert_ne in Hn by assumption. eauto.
  - rewrite (initialize_detached p w Em). simpl.
    eexists; split; [reflexivity|]. split; simpl.
    + intros _. repeat split; try assumption. intros kids E. congruence.
    + intros n [=].
    + exact Hscene.
Qed.

Lemma invariant_cleanup w r :
  invariant w -> dispatch RunCleanup w = Some r ->
  ∃ w', r = Ok w' /\ invariant w'.
Proof.
  intros [Hidle Hlive Hscene] Hd. simpl in Hd.
  destruct (destroy w) as [n|] eqn:Ed; [|discriminate].
  destruct (Hlive n eq_refl) as (Hr & Hc & (f & Ha & Hq) & Hk & Hh & Hl).
  injection Hd as <-. rewrite teardown_eq. simpl.
  eexists; split; [reflexivity|]. unfold torn. rewrite Hr, Hc, Ha, Hq.
  split; simpl.
  - intros _. repeat split.
    + apply delete_singleton_eq.
    + destruct (mountRef w) as [kids|]; [|discriminate].
      rewrite (Hk kids eq_refl). intros kids' [= <-].
      replace (contains [n] n) with true
        by (symmetry; apply contains_elem; constructor).
      apply remove_only_child.
  - intros m [=].
  - intros m c Hm Hload. destruct (decide (n = m)) as [->|Hne].
    + rewrite !lookup_alter_eq in Hm.
      destruct (heap w !! m) as [c0|]; simpl in Hm; [|discriminate].
      injection Hm as <-. right. reflexivity.
    + rewrite !lookup_alter_ne in Hm by assumption. eauto.
Qed.

Lemma invariant_detach w : invariant w -> invariant (set_mountRef None w).
Proof.
  intros [Hidle Hlive Hscene]. split; simpl.
  - intros E. destruct (Hidle E) as (? & ? & ? & _).
    repeat split; try assumption. intros kids [=].
  - intros n E. destruct (Hlive n E) as (? & ? & ? & _ & ? & ?).
    repeat split; try assumption. intros kids [=].
  - exact Hscene.
Qed.

Lemma invariant_frame id mv w r :
  invariant w -> dispatch (Frame id mv) w = Some r ->
  ∃ w', r = Ok w' /\ invariant w'.
Proof.
  intros [Hidle Hlive Hscene] Hd. simpl in Hd.
  destruct (raf w !! id) as [m|] eqn:Eq; [|discriminate]. injection Hd as <-.
  eexists; split; [reflexivity|].
  destruct (destroy w) as [n|] eqn:Ed.
  2:{ destruct (Hidle eq_refl) as (_ & _ & Hq & _).
      rewrite Hq, lookup_empty in Eq. discriminate. }
  destruct (Hlive n eq_refl) as (Hr & Hc & (f & Ha & Hq) & Hk & Hh & Hl).
  rewrite Hq in Eq. apply lookup_singleton_Some in Eq as [<- <-].
  rewrite animate_live by exact Hc. unfold cancelAnimationFrame; simpl.
  rewrite Hq, delete_singleton_eq, insert_empty.
  split; simpl.
  - intros E. congruence.
  - intros n' E. rewrite Ed in E. injection E as <-.
    repeat split; try assumption.
    + eauto.
    + apply alter_defined, Hh.
    + apply (alter_keeps (λ l, l = lights)); [|exact Hl].
      intros c _ Hload. split; [exact Hload | reflexivity].
  - intros n'. apply (alter_keeps (λ l, l = lights \/ l = [])); [|apply Hscene].
    intros c _ Hload. split; [exact Hload | reflexivity].
Qed.

Lemma invariant_input n mv w :
  invariant w -> invariant (modify n (update_controls mv) w).
Proof.
  intros [Hidle Hlive Hscene]. split; simpl.
  - exact Hidle.
  - intros m E. destruct (Hlive m E) as (? & ? & ? & ? & Hh & Hl).
    repeat split; try assumption.
    + apply alter_defined, Hh.
    + apply (alter_keeps (λ l, l = lights)); [|exact Hl].
      intros c _ Hload. split; [exact Hload | reflexivity].
  - intros m. apply (alter_keeps (λ l, l = lights \/ l = [])); [|apply Hscene].
    intros c _ Hload. split; [exact Hload | reflexivity].
Qed.

Lemma invariant_progress loaded total w :
  invariant w -> invariant (onProgress loaded total w).
Proof. intros [Hidle Hlive Hscene]. split; assumption. Qed.

Lemma invariant_success n g w :
  invariant w -> invariant (onLoad n g w).
Proof.
  intros [Hidle Hlive Hscene]. rewrite onLoad_eq. split; simpl.
  - exact Hidle.
  - intros m E. destruct (Hlive m E) as (? & ? & ? & ? & Hh & Hl).
    repeat split; try assumption.
    + apply alter_defined, Hh.
    + apply (alter_keeps (λ l, l = lights)); [|exact Hl].
      intros c _ Hload. exfalso. apply Hload. reflexivity.
  - intros m. apply (alter_keeps (λ l, l = lights \/ l = [])); [|apply Hscene].
    intros c _ Hload. exfalso. apply Hload. reflexivity.
Qed.

Lemma invariant_failure n e w :
  pending n w = true -> invariant w -> invariant (onError n e w).
Proof.
  intros Hp [Hidle Hlive Hscene]. rewrite onError_eq.
  apply pending_lookup in Hp as (c0 & Hc0 & Hl0).
  assert (Hf : ∀ c, heap w !! n = Some c -> load (with_load Failed c) ≠ Loaded ->
               load c ≠ Loaded /\
               children (scene (with_load Failed c)) = children (scene c)).
  { intros c Hc _. split; [|reflexivity]. congruence. }
  split; simpl.
  - exact Hidle.
  - intros m E. destruct (Hlive m E) as (? & ? & ? & ? & Hh & Hl).
    repeat split; try assumption.
    + apply alter_defined, Hh.
    + apply (alter_keeps (λ l, l = lights)); assumption.
  - intros m. apply (alter_keeps (λ l, l = lights \/ l = [])); [exact Hf|].
    apply Hscene.
Qed.

(** No event makes the component throw, and every event keeps the
    invariant. *)
Lemma dispatch_invariant ev w r :
  invariant w -> dispatch ev w = Some r -> ∃ w', r = Ok w' /\ invariant w'.
Proof.
  intros Hinv Hd. destruct ev as [p| | |id mv|k mv|l t|n g|n e].
  - eapply invariant_effect; eassumption.
  - eapply invariant_cleanup; eassumption.
  - simpl in Hd. injection Hd as <-. eexists; split; [reflexivity|].
    apply invariant_detach, Hinv.
  - eapply invariant_frame; eassumption.
  - simpl in Hd. destruct (heap w !! k) as [c|]; [|discriminate].
    destruct (c_disposed (controls c)); [discriminate|].
    injection Hd as <-. eexists; split; [reflexivity|].
    apply invariant_input, Hinv.
  - simpl in Hd. injection Hd as <-. eexists; split; [reflexivity|].
    apply invariant_progress, Hinv.
  - simpl in Hd. destruct (pending n w); [|discriminate]. injection Hd as <-.
    eexists; split; [reflexivity|]. apply invariant_success, Hinv.
  - simpl in Hd. destruct (pending n w) eqn:Hp; [|discriminate].
    injection Hd as <-. eexists; split; [reflexivity|].
    apply invariant_failure; assumption.
Qed.

Lemma run_invariant evs w w' :
  invariant w -> run evs w = Some (Ok w') -> invariant w'.
Proof.
  revert w. induction evs as [|ev evs IH]; intros w Hinv Hrun; simpl in Hrun.
  - injection Hrun as <-. exact Hinv.
  - destruct (dispatch ev w) as [r|] eqn:Ed; [|discriminate].
    destruct (dispatch_invariant ev w r Hinv Ed) as (w1 & -> & Hinv1).
    eapply IH; eassumption.
Qed.

Lemma reachable_invariant w : reachable w -> invariant w.
Proof.
  intros (dpr & evs & Hrun).
  eapply run_invariant; [apply invariant_mounted | exact Hrun].
Qed.

(** A reachable world stays reachable after one more event. *)
Lemma reachable_step ev w w' :
  reachable w -> dispatch ev w = Some (Ok w') -> reachable w'.
Proof.
  intros (dpr & evs & Hrun) Hd. exists dpr, (evs ++ [ev]).
  revert Hrun. generalize (mounted dpr).
  induction evs as [|e evs IH]; intros w0 Hrun; simpl in *.
  - injection Hrun as ->. rewrite Hd. reflexivity.
  - destruct (dispatch e w0) as [[w1|x]|]; try discriminate.
    apply IH, Hrun.
Qed.

End Invariant.

(** ** Concrete executions *)

Section Executions.
Import THREE Viewer.

Lemma run_cons ev evs w w' :
  dispatch ev w = Some (Ok w') -> run (ev :: evs) w = run evs w'.
Proof. intros H. cbn [run]. rewrite H. reflexivity. Qed.

Lemma first_effect p dpr :
  dispatch (RunEffect p) (mounted dpr) = Some (Ok (firstWorld p dpr)).
Proof.
  unfold dispatch. change (destroy (mounted dpr)) with (@None nat).
  rewrite (initialize_idle p (mounted dpr) []) by reflexivity.
  simpl. rewrite !insert_empty. reflexivity.
Qed.

Lemma firstWorld_reachable p dpr : reachable (firstWorld p dpr).
Proof.
  exists dpr, [RunEffect p]. rewrite (run_cons _ _ _ _ (first_effect p dpr)).
  reflexivity.
Qed.

Lemma firstWorld_pending p dpr : pending 0 (firstWorld p dpr) = true.
Proof.
  unfold pending, firstWorld; simpl. rewrite lookup_singleton_eq. reflexivity.
Qed.

Lemma liveWorld_first : liveWorld = firstWorld demoProps 1.
Proof. vm_compute. reflexivity. Qed.

(** The first effect run followed by the completion of its load. *)
Lemma first_load p dpr g :
  after [RunEffect p; LoadSuccess 0 g] dpr = onLoad 0 g (firstWorld p dpr).
Proof.
  assert (H : dispatch (LoadSuccess 0 g) (firstWorld p dpr)
              = Some (Ok (onLoad 0 g (firstWorld p dpr)))).
  { unfold dispatch. rewrite firstWorld_pending. reflexivity. }
  unfold after.
  rewrite (run_cons _ _ _ _ (first_effect p dpr)), (run_cons _ _ _ _ H).
  reflexivity.
Qed.

Lemma first_load_closure p dpr g :
  heap (after [RunEffect p; LoadSuccess 0 g] dpr) !! 0
  = Some (loaded g (drawn (newClosure p dpr))).
Proof.
  rewrite first_load, onLoad_eq. simpl.
  rewrite lookup_alter_eq, lookup_singleton_eq. reflexivity.
Qed.

End Executions.

(** ** What the cleanup leaves behind *)

Section Teardown.
Import THREE Viewer.

Lemma alter_lookup_ex (P : Closure -> Prop) (f : Closure -> Closure)
  (m n : nat) (h : gmap nat Closure) :
  (∀ c, P c -> P (f c)) ->
  (∃ c, h !! n = Some c /\ P c) ->
  ∃ c, alter f m h !! n = Some c /\ P c.
Proof.
  intros Hf (c & Hc & HP). destruct (decide (m = n)) as [->|Hne].
  - exists (f c). rewrite lookup_alter_eq, Hc. split; [reflexivity | auto].
  - exists c. rewrite lookup_alter_ne by assumption. auto.
Qed.

(** The closure of the run that is torn down: its scene is emptied, its
    camera, props and pending request are left alone. *)
Lemma torn_closure n w c :
  heap w !! n = Some c ->
  ∃ c', heap (torn n w) !! n = Some c'
        /\ scene c' = clear (scene c) /\ camera c' = camera c
        /\ props c' = props c /\ load c' = load c.
Proof.
  intros Hc. unfold torn; simpl.
  set (P := λ c' : Closure,
         scene c' = clear (scene c) /\ camera c' = camera c
         /\ props c' = props c /\ load c' = load c).
  assert (H1 : ∃ c', alter (with_scene clear) n (heap w) !! n = Some c' /\ P c').
  { exists (with_scene clear c). rewrite lookup_alter_eq, Hc.
    split; [reflexivity|]. repeat split. }
  assert (H2 : ∃ c',
             match controlsRef w with
             | Some k => alter (with_controls dispose_controls) k
                           (alter (with_scene clear) n (heap w))
             | None => alter (with_scene clear) n (heap w)
             end !! n = Some c' /\ P c').
  { destruct (controlsRef w); [|exact H1].
    apply alter_lookup_ex; [|exact H1]. intros c' HP. exact HP. }
  destruct (rendererRef w); [|exact H2].
  apply alter_lookup_ex; [|exact H2]. intros c' HP. exact HP.
Qed.

Lemma clear_fixed c : children (scene c) = [] -> with_scene clear c = c.
Proof.
  destruct c as [[b ch] cam r k p l]; simpl. intros ->. reflexivity.
Qed.

(** Running the cleanup a second time changes nothing. *)
Lemma torn_idempotent n w : torn n (torn n w) = torn n w.
Proof.
  assert (Hh : alter (with_scene clear) n (heap (torn n w)) = heap (torn n w)).
  { apply alter_id. intros c' Hc'. apply clear_fixed.
    destruct (heap w !! n) as [c|] eqn:Hc.
    - destruct (torn_closure n w c Hc) as (c'' & Hc'' & Hs & _).
      rewrite Hc' in Hc''. injection Hc'' as <-. rewrite Hs. reflexivity.
    - exfalso.
      assert (Hs : is_Some (heap (torn n w) !! n)) by (rewrite Hc'; eauto).
      unfold torn in Hs; simpl in Hs.
      destruct (rendererRef w), (controlsRef w);
        rewrite ?lookup_alter_is_Some, Hc in Hs;
        destruct Hs; discriminate. }
  unfold torn at 1. rewrite Hh.
  destruct w as [m r k a l e h i q j c d y]; unfold torn; simpl.
  destruct a; rewrite ?delete_delete_eq; destruct r, m, k; reflexivity.
Qed.

End Teardown.

(* ===================================================================== *)
(** * Part III: the properties of the specification *)
(* ===================================================================== *)

Section Claims.
Import THREE Fit Viewer.
Local Open Scope R_scope.

(** C1, as stated, fails for a very small model.  At [maxDim = 0.01] the
    near plane is clamped to 0.1 while the far plane, which scales with
    the model, is below 0.05: near is not less than far. *)
Lemma near_exceeds_far_for_tiny_model :
  0 < 0.01 /\
  ~ (nearPlane 0.01 = Rmax (0.01 * 0.01) 0.1 /\
     nearPlane 0.01 < farPlane 75 0.01).
Proof.
  split; [lra|]. intros [_ H].
  rewrite farPlane_linear in H by lra.
  unfold nearPlane, nearPlaneFactor in H.
  rewrite Rmax_right in H by lra.
  pose proof inv_sin_halfFov_bounds as [L U].
  unfold Rdiv in H. lra.
Qed.

(** C1 (amended).  For every [maxDim > 0] the near plane is
    [max(maxDim * 0.01, 0.1)], the far plane is
    [(maxDim / sin(fov/2) + maxDim/2) * 2] at a 75 degree field of view,
    and near is strictly below far exactly when [maxDim] exceeds
    [0.1 / (2 / sin(fov/2) + 1)], a threshold between 0.0233 and 0.0234. *)
Theorem near_below_far_iff (maxDim : R) :
  0 < maxDim ->
  nearPlane maxDim = Rmax (maxDim * 0.01) 0.1
  /\ farPlane 75 maxDim
     = (maxDim / sin (fovRadians 75 / 2) + maxDim / 2) * 2
  /\ (nearPlane maxDim < farPlane 75 maxDim
      <-> 0.1 / (2 / sin (fovRadians 75 / 2) + 1) < maxDim)
  /\ 0.0233 < 0.1 / (2 / sin (fovRadians 75 / 2) + 1) < 0.0234.
Proof.
  intros Hm. split; [reflexivity|]. split; [apply farPlane_nonneg; lra|].
  split; [|apply nearFar_threshold_bounds].
  rewrite farPlane_linear by lra.
  pose proof inv_sin_halfFov_bounds as [L U].
  unfold nearPlane, nearPlaneFactor.
  change (2 / sin (fovRadians 75 / 2)) with (2 * / sin (fovRadians 75 / 2)).
  set (q := / sin (fovRadians 75 / 2)) in *.
  assert (Hk : 0 < 2 * q + 1) by lra.
  assert (Ht : 0.1 / (2 * q + 1) * (2 * q + 1) = 0.1) by (field; lra).
  set (t := 0.1 / (2 * q + 1)) in *.
  split.
  - intros H.
    assert (H1 : 0.1 < maxDim * (2 * q + 1))
      by (eapply Rle_lt_trans; [apply Rmax_r | exact H]).
    apply (Rmult_lt_reg_r (2 * q + 1)); lra.
  - intros H.
    assert (H1 : t * (2 * q + 1) < maxDim * (2 * q + 1))
      by (apply Rmult_lt_compat_r; assumption).
    assert (H2 : 0 < maxDim * (2 * q + 0.99))
      by (apply Rmult_lt_0_compat; lra).
    apply Rmax_lub_lt; lra.
Qed.

Lemma near_below_far_iff_witness :
  0 < 1 /\
  (nearPlane 1 = Rmax (1 * 0.01) 0.1
   /\ farPlane 75 1 = (1 / sin (fovRadians 75 / 2) + 1 / 2) * 2
   /\ (nearPlane 1 < farPlane 75 1
       <-> 0.1 / (2 / sin (fovRadians 75 / 2) + 1) < 1)
   /\ 0.0233 < 0.1 / (2 / sin (fovRadians 75 / 2) + 1) < 0.0234).
Proof.
  split; [lra | apply (near_below_far_iff 1); lra].
Defined.

(** The camera of the first run after its load of the 2 x 2 x 2 cube. *)
Lemma cube_camera p dpr :
  ∃ c, heap (after [RunEffect p; LoadSuccess 0 (cube origin 2)] dpr) !! 0%nat
       = Some c
    /\ z (position (camera c)) = 1.5 * (2 / sin (fovRadians 75 / 2))
    /\ near (camera c) = 0.1
    /\ far (camera c) = (2 / sin (fovRadians 75 / 2) + 2 / 2) * 2.
Proof.
  eexists. split; [apply first_load_closure|].
  change (camera (loaded (cube origin 2) (drawn (newClosure p dpr))))
    with (fitCamera (cube origin 2) (newCamera p)).
  destruct (fitCamera_75 (cube origin 2) (newCamera p) eq_refl)
    as (Hz & Hn & Hf).
  rewrite cube_maxDim in Hz, Hn, Hf by lra.
  repeat split; try assumption.
  rewrite Hn. apply Rmax_right. lra.
Qed.

(** C2, as stated, fails: for the 2 x 2 x 2 cube the camera does not end
    up at about 2.46 with a far plane of about 6.92. *)
Lemma cube_fit_not_as_quoted :
  ~ (∃ c,
      heap (after [RunEffect demoProps; LoadSuccess 0 (cube origin 2)] 1)
        !! 0%nat = Some c
      /\ approx (z (position (camera c))) 2.46
      /\ near (camera c) = 0.1
      /\ approx (far (camera c)) 6.92).
Proof.
  intros (c & Hc & Hz & _ & _).
  destruct (cube_camera demoProps 1) as (c' & Hc' & Hz' & _).
  rewrite Hc in Hc'. injection Hc' as <-.
  unfold approx in Hz. rewrite Hz' in Hz.
  pose proof inv_sin_halfFov_bounds as [L U].
  pose proof (Rle_abs (1.5 * (2 / sin (fovRadians 75 / 2)) - 2.46)) as Ha.
  unfold Rdiv in *. lra.
Qed.

(** C2 (amended).  For a 2 x 2 x 2 cube centred at the origin, [maxDim] is
    2: the load-success computation puts the camera at
    [(2 / sin(37.5 deg)) * 1.5], about 4.93, sets the near plane to
    [max(0.02, 0.1) = 0.1] and the far plane to
    [(2 / sin(37.5 deg) + 1) * 2], about 8.57. *)
Theorem cube_fit (p : STLViewerProps) (dpr : R) :
  ∃ c,
    heap (after [RunEffect p; LoadSuccess 0 (cube origin 2)] dpr) !! 0%nat
      = Some c
    /\ approx (z (position (camera c))) 4.93
    /\ near (camera c) = 0.1
    /\ approx (far (camera c)) 8.57.
Proof.
  destruct (cube_camera p dpr) as (c & Hc & Hz & Hn & Hf).
  exists c. split; [exact Hc|].
  pose proof inv_sin_halfFov_bounds as [L U].
  repeat split; try assumption; unfold approx.
  - rewrite Hz. apply Rabs_le. unfold Rdiv. lra.
  - rewrite Hf. apply Rabs_le. unfold Rdiv. lra.
Qed.



(** C5.  After a successful load the mesh sits in its run's scene at the
    position that cancels its bounding-box centre: centre plus position is
    the origin, and so is the centre of the bounding box of the vertices
    as placed, whatever origin the geometry was authored with. *)
Theorem onLoad_centres_mesh (w : World) (n : nat) (c : Closure)
  (g : BufferGeometry) :
  heap w !! n = Some c ->
  ∃ c' material pos,
    heap (onLoad n g w) !! n = Some c'
    /\ children (scene c') = children (scene c) ++ [Mesh g material pos]
    /\ addVectors (getCenter (computeBoundingBox g)) pos = origin
    /\ getCenter (computeBoundingBox (worldVertices g pos)) = origin.
Proof.
  intros Hc.
  exists (loaded g c), (mkMaterial (modelColor (props c)) 0x111111 200),
         (meshPosition g).
  rewrite onLoad_eq. simpl. rewrite lookup_alter_eq, Hc.
  split; [reflexivity|]. split; [reflexivity|].
  split; [apply center_cancels | apply centered_box_center].
Qed.

Lemma onLoad_centres_mesh_witness :
  heap liveWorld !! 0%nat = Some (drawn (newClosure demoProps 1))
  /\ ∃ c' material pos,
      heap (onLoad 0 (cube (vec3 3 4 5) 2) liveWorld) !! 0%nat = Some c'
      /\ children (scene c')
         = children (scene (drawn (newClosure demoProps 1)))
           ++ [Mesh (cube (vec3 3 4 5) 2) material pos]
      /\ addVectors (getCenter (computeBoundingBox (cube (vec3 3 4 5) 2))) pos
         = origin
      /\ getCenter
           (computeBoundingBox (worldVertices (cube (vec3 3 4 5) 2) pos))
         = origin.
Proof.
  assert (H1 : heap liveWorld !! 0%nat
               = Some (drawn (newClosure demoProps 1)))
    by (vm_compute; reflexivity).
  split; [exact H1|].
  exact (onLoad_centres_mesh liveWorld 0 _ (cube (vec3 3 4 5) 2) H1).
Defined.

End Claims.

Section LifecycleClaims.
Import THREE Fit Viewer.

(** C3, as stated, fails.  The demo viewer is mounted, its props change
    (cleanup of run 0, then run 1), and only then the request of run 0
    completes: run 0 is no longer the live one, yet either callback
    changes the state run 0 can reach. *)
Lemma late_callbacks_mutate_state :
  let w := after [RunEffect demoProps; RunCleanup; RunEffect demoProps] 1 in
  destroy w = Some 1
  /\ pending 0 w = true
  /\ viewerState 0 (onLoad 0 (cube origin 2) w) ≠ viewerState 0 w
  /\ viewerState 0 (onError 0 (HttpError 404) w) ≠ viewerState 0 w.
Proof.
  intros w.
  assert (Hl : loading w = true) by (vm_compute; reflexivity).
  split; [vm_compute; reflexivity|]. split; [vm_compute; reflexivity|].
  split; unfold viewerState; intros [= _ H _];
    rewrite Hl in H; discriminate H.
Qed.

(** C3 (amended).  Neither load-completion callback checks whether its
    run is still mounted.  A request that is pending when its run is torn
    down can still complete, and then its callback runs in full: success
    adds the mesh to the emptied scene of that run, refits that run's
    camera and clears the loading flag; failure sets the error message
    and clears the loading flag. *)
Theorem late_callbacks_take_effect (w : World) (n : nat) (c : Closure)
  (g : BufferGeometry) (e : ErrorEvent) :
  heap w !! n = Some c ->
  load c = Pending ->
  ∃ w1,
    teardown n w = Ok w1
    /\ dispatch (LoadSuccess n g) w1 = Some (Ok (onLoad n g w1))
    /\ dispatch (LoadFailure n e) w1 = Some (Ok (onError n e w1))
    /\ loading (onLoad n g w1) = false
    /\ (∃ c' material pos,
          heap (onLoad n g w1) !! n = Some c'
          /\ children (scene c') = [Mesh g material pos]
          /\ camera c' = fitCamera g (camera c))
    /\ error (onError n e w1) = Some failureMessage
    /\ loading (onError n e w1) = false.
Proof.
  intros Hc Hl. exists (torn n w). split; [apply teardown_eq|].
  destruct (torn_closure n w c Hc) as (c1 & Hc1 & Hs & Hcam & Hp & Hl1).
  assert (Hpend : pending n (torn n w) = true).
  { apply pending_lookup. exists c1. split; [exact Hc1 | congruence]. }
  split; [simpl; rewrite Hpend; reflexivity|].
  split; [simpl; rewrite Hpend; reflexivity|].
  split; [reflexivity|]. split; [|split; reflexivity].
  exists (loaded g c1), (mkMaterial (modelColor (props c1)) 0x111111 200%R),
         (meshPosition g).
  rewrite onLoad_lookup, Hc1.
  split; [reflexivity|]. split.
  - simpl. rewrite Hs. reflexivity.
  - simpl. rewrite Hcam. reflexivity.
Qed.

Lemma late_callbacks_take_effect_witness :
  heap liveWorld !! 0 = Some (drawn (newClosure demoProps 1))
  /\ load (drawn (newClosure demoProps 1)) = Pending
  /\ ∃ w1,
      teardown 0 liveWorld = Ok w1
      /\ dispatch (LoadSuccess 0 (cube origin 2)) w1
         = Some (Ok (onLoad 0 (cube origin 2) w1))
      /\ dispatch (LoadFailure 0 (HttpError 404)) w1
         = Some (Ok (onError 0 (HttpError 404) w1))
      /\ loading (onLoad 0 (cube origin 2) w1) = false
      /\ (∃ c' material pos,
            heap (onLoad 0 (cube origin 2) w1) !! 0 = Some c'
            /\ children (scene c') = [Mesh (cube origin 2) material pos]
            /\ camera c'
               = fitCamera (cube origin 2)
                   (camera (drawn (newClosure demoProps 1))))
      /\ error (onError 0 (HttpError 404) w1) = Some failureMessage
      /\ loading (onError 0 (HttpError 404) w1) = false.
Proof.
  assert (H1 : heap liveWorld !! 0 = Some (drawn (newClosure demoProps 1)))
    by (vm_compute; reflexivity).
  assert (H2 : load (drawn (newClosure demoProps 1)) = Pending)
    by reflexivity.
  split; [exact H1|]. split; [exact H2|].
  exact (late_callbacks_take_effect liveWorld 0 _ (cube origin 2)
           (HttpError 404) H1 H2).
Defined.

(** C6: the cleanup nulls the renderer and controls refs but not the
    animation-frame ref.  In every world in which a run is live, the
    cleanup succeeds, leaves [rendererRef] and [controlsRef] null and the
    frame queue empty, but [animationFrameRef] still holds the id of the
    frame it cancelled; a second cleanup succeeds and changes nothing. *)
Theorem teardown_keeps_frame_handle (w : World) (n : nat) :
  reachable w ->
  destroy w = Some n ->
  ∃ w1 f,
    teardown n w = Ok w1
    /\ rendererRef w1 = None
    /\ controlsRef w1 = None
    /\ animationFrameRef w = Some f
    /\ animationFrameRef w1 = Some f
    /\ raf w1 = ∅
    /\ teardown n w1 = Ok w1.
Proof.
  intros Hr Hd. apply reachable_invariant in Hr as [_ Hlive _].
  destruct (Hlive n Hd) as (_ & _ & (f & Ha & Hq) & _).
  exists (torn n w), f. split; [apply teardown_eq|].
  split; [reflexivity|]. split; [reflexivity|]. split; [exact Ha|].
  split; [exact Ha|]. split.
  - unfold torn; simpl. rewrite Ha, Hq. apply delete_singleton_eq.
  - rewrite teardown_eq, torn_idempotent. reflexivity.
Qed.

Lemma teardown_keeps_frame_handle_witness :
  reachable liveWorld
  /\ destroy liveWorld = Some 0
  /\ ∃ w1 f,
      teardown 0 liveWorld = Ok w1
      /\ rendererRef w1 = None
      /\ controlsRef w1 = None
      /\ animationFrameRef liveWorld = Some f
      /\ animationFrameRef w1 = Some f
      /\ raf w1 = ∅
      /\ teardown 0 w1 = Ok w1.
Proof.
  assert (H1 : reachable liveWorld)
    by (exists 1%R, [RunEffect demoProps]; vm_compute; reflexivity).
  assert (H2 : destroy liveWorld = Some 0) by (vm_compute; reflexivity).
  split; [exact H1|]. split; [exact H2|].
  exact (teardown_keeps_frame_handle liveWorld 0 H1 H2).
Defined.

(** A request of run 0 that fails after the request of run 1 has
    succeeded. *)
Lemma failure_after_success w0 g e c0 c1 :
  heap w0 !! 0 = Some c0 -> load c0 = Pending ->
  heap w0 !! 1 = Some c1 -> load c1 = Pending ->
  run [LoadSuccess 1 g; LoadFailure 0 e] w0
  = Some (Ok (onError 0 e (onLoad 1 g w0)))
  /\ destroy (onError 0 e (onLoad 1 g w0)) = destroy w0
  /\ meshPresent 1 (onError 0 e (onLoad 1 g w0)) = true
  /\ errorPresent (onError 0 e (onLoad 1 g w0)) = true.
Proof.
  intros H0 Hl0 H1 Hl1.
  assert (P1 : pending 1 w0 = true) by (apply pending_lookup; eauto).
  assert (P0 : pending 0 (onLoad 1 g w0) = true).
  { apply pending_lookup. exists c0. split; [|exact Hl0].
    rewrite onLoad_eq. cbn [heap]. rewrite lookup_alter_ne by discriminate.
    exact H0. }
  assert (E1 : dispatch (LoadSuccess 1 g) w0 = Some (Ok (onLoad 1 g w0)))
    by (unfold dispatch; rewrite P1; reflexivity).
  assert (E2 : dispatch (LoadFailure 0 e) (onLoad 1 g w0)
               = Some (Ok (onError 0 e (onLoad 1 g w0))))
    by (unfold dispatch; rewrite P0; reflexivity).
  split; [rewrite (run_cons _ _ _ _ E1), (run_cons _ _ _ _ E2); reflexivity|].
  split; [reflexivity|]. split; [|reflexivity].
  unfold meshPresent. rewrite onError_eq. cbn [heap].
  rewrite lookup_alter_ne by discriminate.
  rewrite onLoad_lookup, H1. simpl.
  rewrite existsb_app. apply orb_true_r.
Qed.

(** C7, as stated, fails for a request that outlives its run.  The demo
    viewer is mounted, a prop changes (cleanup of run 0, run 1 starts),
    the request of run 1 succeeds and then the request of run 0 fails:
    the live scene holds the mesh and the error message is present, both
    at once.  And when the viewer is unmounted before the request fails,
    the failure finds no render loop and an emptied, unlit scene. *)
Lemma stale_failure_beside_mesh :
  let w0 := after [RunEffect demoProps; RunCleanup; RunEffect demoProps] 1 in
  let w := onError 0 (HttpError 404) (onLoad 1 (cube origin 2) w0) in
  let u := after [RunEffect demoProps; DetachRef; RunCleanup;
                  LoadFailure 0 (HttpError 404)] 1 in
  run [RunEffect demoProps; RunCleanup; RunEffect demoProps] (mounted 1)
  = Some (Ok w0)
  /\ run [LoadSuccess 1 (cube origin 2); LoadFailure 0 (HttpError 404)] w0
     = Some (Ok w)
  /\ destroy w = Some 1
  /\ meshPresent 1 w = true
  /\ errorPresent w = true
  /\ run [RunEffect demoProps; DetachRef; RunCleanup;
          LoadFailure 0 (HttpError 404)] (mounted 1) = Some (Ok u)
  /\ errorPresent u = true
  /\ raf u = ∅
  /\ children <$> (scene <$> heap u !! 0) = Some [].
Proof.
  intros w0 w u.
  split; [vm_compute; reflexivity|].
  assert (H0 : heap w0 !! 0
               = Some (Upkeep.released (drawn (newClosure demoProps 1))))
    by (vm_compute; reflexivity).
  assert (H1 : heap w0 !! 1 = Some (drawn (newClosure demoProps 1)))
    by (vm_compute; reflexivity).
  assert (Hd : destroy w0 = Some 1) by (vm_compute; reflexivity).
  destruct (failure_after_success w0 (cube origin 2) (HttpError 404) _ _
              H0 eq_refl H1 eq_refl) as (R1 & R2 & R3 & R4).
  split; [exact R1|]. split; [rewrite <- Hd; exact R2|].
  split; [exact R3|]. split; [exact R4|].
  split; [vm_compute; reflexivity|].
  split; [vm_compute; reflexivity|].
  split; vm_compute; reflexivity.
Qed.

(** C7 (amended).  Whenever a pending request fails, the error message is
    set, the loading flag is cleared and no scene changes, so no mesh is
    added; the scene of the failing run holds no mesh; the frame queue
    and the frame handle are untouched.  If the failing run is the live
    one, then of "mesh present in the scene" and "error message present"
    exactly the second holds, the scene is the three lights, a frame is
    still requested, and that frame draws exactly the three lights. *)
Theorem failed_load_outcome (w : World) (n : nat) (e : ErrorEvent) :
  reachable w ->
  pending n w = true ->
  let w' := onError n e w in
  dispatch (LoadFailure n e) w = Some (Ok w')
  /\ error w' = Some failureMessage
  /\ loading w' = false
  /\ overlays w' = [ErrorOverlay failureMessage]
  /\ errorPresent w' = true
  /\ (∀ m, scene <$> heap w' !! m = scene <$> heap w !! m)
  /\ meshPresent n w' = false
  /\ raf w' = raf w
  /\ animationFrameRef w' = animationFrameRef w
  /\ (destroy w = Some n ->
      xorb (meshPresent n w') (errorPresent w') = true
      /\ ∃ f,
          animationFrameRef w' = Some f
          /\ ∀ mv, ∃ w'' c'',
              dispatch (Frame f mv) w' = Some (Ok w'')
              /\ heap w'' !! n = Some c''
              /\ children (scene c'') = lights
              /\ fst <$> rendered (renderer c'') = Some lights).
Proof.
  intros Hr Hp w'. apply reachable_invariant in Hr as [_ Hlive Hscene].
  pose proof Hp as Hp'. apply pending_lookup in Hp' as (c0 & Hc0 & Hl0).
  assert (Hnl : load c0 ≠ Loaded) by congruence.
  assert (Hc' : heap w' !! n = Some (with_load Failed c0)).
  { unfold w'. rewrite onError_lookup, Hc0. reflexivity. }
  assert (Hmesh : meshPresent n w' = false).
  { unfold meshPresent. rewrite Hc'. simpl.
    destruct (Hscene n c0 Hc0 Hnl) as [-> | ->]; reflexivity. }
  split; [simpl; rewrite Hp; reflexivity|].
  split; [reflexivity|]. split; [reflexivity|]. split; [reflexivity|].
  split; [reflexivity|]. split.
  { intros m. unfold w'. rewrite onError_eq. cbn [heap].
    destruct (decide (n = m)) as [->|Hne].
    - rewrite lookup_alter_eq. destruct (heap w !! m); reflexivity.
    - rewrite lookup_alter_ne by assumption. reflexivity. }
  split; [exact Hmesh|].
  split; [reflexivity|]. split; [reflexivity|].
  intros Hd. split; [rewrite Hmesh; reflexivity|].
  destruct (Hlive n Hd) as (_ & Hk & (f & Ha & Hq) & _ & _ & Hlights).
  exists f. split; [exact Ha|]. intros mv.
  eexists. exists (drawnBy mv (with_load Failed c0)).
  assert (Hf : raf w' !! f = Some n)
    by (change (raf w') with (raf w); rewrite Hq; apply lookup_singleton_eq).
  split; [unfold dispatch; rewrite Hf; reflexivity|].
  rewrite animate_live by exact Hk. cbn [heap].
  change (heap (cancelAnimationFrame f w'))
    with (alter (with_load Failed) n (heap w)).
  rewrite !lookup_alter_eq, Hc0. split; [reflexivity|].
  simpl. rewrite (Hlights c0 Hc0 Hnl). split; reflexivity.
Qed.

Lemma failed_load_outcome_witness :
  reachable liveWorld
  /\ pending 0 liveWorld = true
  /\ let w' := onError 0 (HttpError 404) liveWorld in
     dispatch (LoadFailure 0 (HttpError 404)) liveWorld = Some (Ok w')
     /\ error w' = Some failureMessage
     /\ loading w' = false
     /\ overlays w' = [ErrorOverlay failureMessage]
     /\ errorPresent w' = true
     /\ (∀ m, scene <$> heap w' !! m = scene <$> heap liveWorld !! m)
     /\ meshPresent 0 w' = false
     /\ raf w' = raf liveWorld
     /\ animationFrameRef w' = animationFrameRef liveWorld
     /\ (destroy liveWorld = Some 0 ->
         xorb (meshPresent 0 w') (errorPresent w') = true
         /\ ∃ f,
             animationFrameRef w' = Some f
             /\ ∀ mv, ∃ w'' c'',
                 dispatch (Frame f mv) w' = Some (Ok w'')
                 /\ heap w'' !! 0 = Some c''
                 /\ children (scene c'') = lights
                 /\ fst <$> rendered (renderer c'') = Some lights).
Proof.
  assert (H1 : reachable liveWorld)
    by (exists 1%R, [RunEffect demoProps]; vm_compute; reflexivity).
  assert (H2 : pending 0 liveWorld = true) by (vm_compute; reflexivity).
  split; [exact H1|]. split; [exact H2|].
  exact (failed_load_outcome liveWorld 0 (HttpError 404) H1 H2).
Defined.

(** C8.  When a prop changes while the viewer is mounted, React runs the
    cleanup of the live run and then the effect again.  Before, the
    container holds the one canvas of the live run; the cleanup removes
    it; the new run appends its own: afterwards the container holds
    exactly one canvas, the one the renderer ref points to. *)
Theorem reinitialize_one_surface (w : World) (n : nat) (kids : list nat)
  (p : STLViewerProps) :
  reachable w ->
  destroy w = Some n ->
  mountRef w = Some kids ->
  ∃ w1 w2 canvas,
    dispatch RunCleanup w = Some (Ok w1)
    /\ dispatch (RunEffect p) w1 = Some (Ok w2)
    /\ kids = [n]
    /\ mountRef w1 = Some []
    /\ mountRef w2 = Some [canvas]
    /\ List.length <$> mountRef w2 = Some 1
    /\ rendererRef w2 = Some canvas
    /\ destroy w2 = Some canvas.
Proof.
  intros Hr Hd Hm. apply reachable_invariant in Hr.
  assert (H1 : dispatch RunCleanup w = Some (Ok (set_destroy None (torn n w)))).
  { unfold dispatch. rewrite Hd, teardown_eq. reflexivity. }
  destruct (invariant_cleanup w _ Hr H1) as (w1 & [= <-] & [Hidle1 _ _]).
  destruct Hr as [_ Hlive _].
  destruct (Hlive n Hd) as (Href & _ & _ & Hk & _).
  pose proof (Hk kids Hm) as ->.
  destruct (Hidle1 eq_refl) as (Hr1 & _ & _ & Hk1).
  assert (Hm1 : mountRef (set_destroy None (torn n w)) = Some []).
  { unfold torn; simpl. rewrite Href, Hm.
    replace (contains [n] n) with true
      by (symmetry; apply contains_elem; constructor).
    rewrite remove_only_child. reflexivity. }
  exists (set_destroy None (torn n w)). eexists.
  exists (next_id (set_destroy None (torn n w))).
  split; [exact H1|]. split.
  { unfold dispatch. change (destroy (set_destroy None (torn n w)))
      with (@None nat).
    rewrite (initialize_idle p _ [] Hm1 Hr1). reflexivity. }
  repeat split; assumption.
Qed.

Lemma reinitialize_one_surface_witness :
  reachable liveWorld
  /\ destroy liveWorld = Some 0
  /\ mountRef liveWorld = Some [0]
  /\ ∃ w1 w2 canvas,
      dispatch RunCleanup liveWorld = Some (Ok w1)
      /\ dispatch (RunEffect demoProps) w1 = Some (Ok w2)
      /\ [0] = [0]
      /\ mountRef w1 = Some []
      /\ mountRef w2 = Some [canvas]
      /\ List.length <$> mountRef w2 = Some 1
      /\ rendererRef w2 = Some canvas
      /\ destroy w2 = Some canvas.
Proof.
  assert (H1 : reachable liveWorld)
    by (exists 1%R, [RunEffect demoProps]; vm_compute; reflexivity).
  assert (H2 : destroy liveWorld = Some 0) by (vm_compute; reflexivity).
  assert (H3 : mountRef liveWorld = Some [0]) by (vm_compute; reflexivity).
  split; [exact H1|]. split; [exact H2|]. split; [exact H3|].
  exact (reinitialize_one_surface liveWorld 0 [0] demoProps H1 H2 H3).
Defined.

(** C9.  The message the failure callback stores is the constant
    "Failed to load the 3D model.": two different error values lead to the
    same stored message and to the same overlays on screen. *)
Theorem error_message_constant (w : World) (n : nat) (e1 e2 : ErrorEvent) :
  failureMessage = "Failed to load the 3D model."%string
  /\ error (onError n e1 w) = Some failureMessage
  /\ error (onError n e2 w) = error (onError n e1 w)
  /\ overlays (onError n e1 w) = overlays (onError n e2 w)
  /\ overlays (onError n e1 w) = [ErrorOverlay failureMessage].
Proof. repeat split. Qed.

(** C10.  Whenever React runs the effect, the renderer ref is null: the
    cleanup that preceded it nulled it, and before the first run nothing
    had set it.  So the branch that removes a prior canvas is never
    entered, and the effect body does not throw. *)
Theorem effect_entry_renderer_null (w : World) (p : STLViewerProps)
  (r : Result World) :
  reachable w ->
  dispatch (RunEffect p) w = Some r ->
  rendererRef w = None /\ ∃ w', r = Ok w'.
Proof.
  intros Hr Hd. apply reachable_invariant in Hr.
  destruct (invariant_effect p w r Hr Hd) as (w' & -> & _).
  split; [|eauto].
  destruct Hr as [Hidle _ _]. simpl in Hd.
  destruct (destroy w); [discriminate|]. apply Hidle. reflexivity.
Qed.

Lemma effect_entry_renderer_null_witness :
  let w := after [RunEffect demoProps; RunCleanup] 1 in
  let w' := after [RunEffect demoProps; RunCleanup; RunEffect demoProps] 1 in
  reachable w
  /\ dispatch (RunEffect demoProps) w = Some (Ok w')
  /\ rendererRef w = None
  /\ ∃ w'', Ok w' = Ok w''.
Proof.
  intros w w'.
  assert (H1 : reachable w)
    by (exists 1%R, [RunEffect demoProps; RunCleanup];
        vm_compute; reflexivity).
  assert (H2 : dispatch (RunEffect demoProps) w = Some (Ok w'))
    by (vm_compute; reflexivity).
  split; [exact H1|]. split; [exact H2|].
  exact (effect_entry_renderer_null w demoProps (Ok w') H1 H2).
Defined.

End LifecycleClaims.

(* ===================================================================== *)
(** * Part IV: further properties of the code *)
(* ===================================================================== *)

(** ** The fitted camera and the placed mesh *)

Section Placement.
Import THREE Fit Frustum.
Local Open Scope R_scope.

Lemma expandByPoint_inside_self b p : inside (expandByPoint b p) p.
Proof.
  destruct b as [|lo hi]; simpl.
  - repeat split; apply Rle_refl.
  - repeat split; first [apply Rmin_r | apply Rmax_r].
Qed.

Lemma expandByPoint_inside_keep b p v :
  inside b v -> inside (expandByPoint b p) v.
Proof.
  destruct b as [|lo hi]; simpl; [tauto|].
  intros ((? & ?) & (? & ?) & (? & ?)).
  repeat split;
    first [ eapply Rle_trans; [apply Rmin_l | eassumption]
          | eapply Rle_trans; [eassumption | apply Rmax_l] ].
Qed.

Lemma fold_expand_inside g b v :
  inside b v \/ In v g -> inside (fold_left expandByPoint g b) v.
Proof.
  revert b. induction g as [|p g IH]; intros b [H|H]; simpl in *.
  - exact H.
  - contradiction.
  - apply IH. left. apply expandByPoint_inside_keep, H.
  - apply IH. destruct H as [<-|H]; [left|right; exact H].
    apply expandByPoint_inside_self.
Qed.

(** Every vertex lies within the computed bounding box. *)
Lemma computeBoundingBox_inside g v :
  In v g -> inside (computeBoundingBox g) v.
Proof. intros H. apply fold_expand_inside. right. exact H. Qed.

Lemma getSize_translate t b : getSize (translate t b) = getSize b.
Proof.
  destruct b as [|lo hi]; simpl; [reflexivity|].
  apply vector3_eq; simpl; lra.
Qed.

Lemma maxDim_translate g t : maxDim (worldVertices g t) = maxDim g.
Proof.
  unfold maxDim. rewrite computeBoundingBox_translate, getSize_translate.
  reflexivity.
Qed.


Lemma Rabs_half_span lo hi v :
  lo <= v <= hi -> Rabs (v + - ((lo + hi) * 0.5)) <= (hi - lo) / 2.
Proof. intros [H1 H2]. apply Rabs_le. lra. Qed.

(** Each coordinate of a placed vertex is at most [maxDim / 2] away from
    zero. *)
Lemma placed_bounds g v :
  In v g ->
  Rabs (x (placed g v)) <= maxDim g / 2
  /\ Rabs (y (placed g v)) <= maxDim g / 2
  /\ Rabs (z (placed g v)) <= maxDim g / 2.
Proof.
  intros Hv. apply computeBoundingBox_inside in Hv.
  unfold placed, meshPosition, maxDim.
  destruct (computeBoundingBox g) as [|lo hi]; simpl in *; [contradiction|].
  destruct Hv as (Hx & Hy & Hz).
  pose proof (Rabs_half_span _ _ _ Hx) as Bx.
  pose proof (Rabs_half_span _ _ _ Hy) as By.
  pose proof (Rabs_half_span _ _ _ Hz) as Bz.
  pose proof (Rmax_l (Rmax (x hi - x lo) (y hi - y lo)) (z hi - z lo)).
  pose proof (Rmax_r (Rmax (x hi - x lo) (y hi - y lo)) (z hi - z lo)).
  pose proof (Rmax_l (x hi - x lo) (y hi - y lo)).
  pose proof (Rmax_r (x hi - x lo) (y hi - y lo)).
  repeat split; lra.
Qed.

End Placement.

Section PlacementProperties.
Import THREE Fit Frustum.
Local Open Scope R_scope.

(** X1.  After centring, every vertex of the mesh lies within
    [maxDim / 2] of the origin along each axis: the placed mesh fits in
    the cube of edge [maxDim] around the origin. *)
Theorem placed_vertex_within_half_maxDim (g : BufferGeometry) (v : Vector3) :
  In v g ->
  Rabs (x (placed g v)) <= maxDim g / 2
  /\ Rabs (y (placed g v)) <= maxDim g / 2
  /\ Rabs (z (placed g v)) <= maxDim g / 2.
Proof. apply placed_bounds. Qed.

Lemma placed_vertex_within_half_maxDim_witness :
  In (vec3 4 3 6) (cube (vec3 3 4 5) 2)
  /\ Rabs (x (placed (cube (vec3 3 4 5) 2) (vec3 4 3 6)))
     <= maxDim (cube (vec3 3 4 5) 2) / 2
  /\ Rabs (y (placed (cube (vec3 3 4 5) 2) (vec3 4 3 6)))
     <= maxDim (cube (vec3 3 4 5) 2) / 2
  /\ Rabs (z (placed (cube (vec3 3 4 5) 2) (vec3 4 3 6)))
     <= maxDim (cube (vec3 3 4 5) 2) / 2.
Proof.
  assert (H : In (vec3 4 3 6) (cube (vec3 3 4 5) 2)).
  { unfold cube; simpl. right. right. right. right. right. left.
    f_equal; lra. }
  split; [exact H|].
  exact (placed_vertex_within_half_maxDim _ _ H).
Defined.



(** X3.  The fit does not depend on where the geometry was authored:
    moving every vertex by the same offset changes neither [maxDim] nor
    the fitted camera, and the vertices end up at the same places in the
    scene. *)
Theorem fit_ignores_authored_origin (g : BufferGeometry) (t : Vector3)
  (cam : PerspectiveCamera) :
  maxDim (worldVertices g t) = maxDim g
  /\ fitCamera (worldVertices g t) cam = fitCamera g cam
  /\ map (placed (worldVertices g t)) (worldVertices g t)
     = map (placed g) g.
Proof.
  split; [apply maxDim_translate|]. split.
  - unfold fitCamera. rewrite maxDim_translate. reflexivity.
  - unfold worldVertices at 2. rewrite map_map. apply map_ext_in.
    intros v Hv. apply computeBoundingBox_inside in Hv.
    unfold placed, meshPosition.
    rewrite computeBoundingBox_translate.
    destruct (computeBoundingBox g) as [|lo hi]; simpl in *; [contradiction|].
    apply vector3_eq; simpl; lra.
Qed.

(** X4.  A geometry without extent (no vertex, or a single one) has
    [maxDim = 0]: the camera is put at distance 0, the far plane at 0 and
    the near plane at its floor 0.1, so the far plane lies in front of the
    near plane. *)
Theorem fit_of_flat_geometry (g : BufferGeometry) (cam : PerspectiveCamera) :
  (List.length g <= 1)%nat ->
  maxDim g = 0
  /\ z (position (fitCamera g cam)) = 0
  /\ near (fitCamera g cam) = 0.1
  /\ far (fitCamera g cam) = 0
  /\ far (fitCamera g cam) < near (fitCamera g cam).
Proof.
  intros Hlen.
  assert (Hm : maxDim g = 0).
  { destruct g as [|v [|v' g]]; simpl in Hlen.
    - unfold maxDim, computeBoundingBox, getSize, origin; simpl.
      rewrite (Rmax_left 0 0) by lra. apply Rmax_left. lra.
    - unfold maxDim, computeBoundingBox; simpl.
      replace (x v - x v) with 0 by lra.
      replace (y v - y v) with 0 by lra.
      replace (z v - z v) with 0 by lra.
      rewrite (Rmax_left 0 0) by lra. apply Rmax_left. lra.
    - exfalso. apply (PeanoNat.Nat.nle_succ_0 (List.length g)).
      apply le_S_n. exact Hlen. }
  assert (Hc : cameraZ (fov cam) 0 = 0).
  { unfold cameraZ. replace (0 / sin (fovRadians (fov cam) / 2)) with 0
      by (unfold Rdiv; rewrite Rmult_0_l; reflexivity).
    apply Rabs_R0. }
  split; [exact Hm|].
  unfold fitCamera; simpl. rewrite Hm.
  unfold farPlane, farPlaneFactor, nearPlane, nearPlaneFactor. rewrite Hc.
  rewrite Rmax_right by lra.
  repeat split; lra.
Qed.

Lemma fit_of_flat_geometry_witness :
  (List.length (@nil Vector3) <= 1)%nat
  /\ maxDim [] = 0
  /\ z (position (fitCamera [] (Viewer.newCamera Viewer.demoProps))) = 0
  /\ near (fitCamera [] (Viewer.newCamera Viewer.demoProps)) = 0.1
  /\ far (fitCamera [] (Viewer.newCamera Viewer.demoProps)) = 0
  /\ far (fitCamera [] (Viewer.newCamera Viewer.demoProps))
     < near (fitCamera [] (Viewer.newCamera Viewer.demoProps)).
Proof.
  assert (H : (List.length (@nil Vector3) <= 1)%nat) by (simpl; lia).
  split; [exact H|].
  exact (fit_of_flat_geometry [] (Viewer.newCamera Viewer.demoProps) H).
Defined.

End PlacementProperties.

(** ** Upkeep is kept by every event *)

Section UpkeepKept.
Import THREE Viewer Upkeep.

Lemma alter_forall (P Q : nat -> Closure -> Prop) (f : Closure -> Closure)
  (m : nat) (h : gmap nat Closure) :
  (∀ k c, h !! k = Some c -> P k c) ->
  (∀ c, h !! m = Some c -> P m c -> Q m (f c)) ->
  (∀ k c, k ≠ m -> P k c -> Q k c) ->
  ∀ k c, alter f m h !! k = Some c -> Q k c.
Proof.
  intros HP Hm Hk k c Hc. destruct (decide (m = k)) as [->|Hne].
  - rewrite lookup_alter_eq in Hc.
    destruct (h !! k) as [c0|] eqn:E; simpl in Hc; [|discriminate].
    injection Hc as <-. apply Hm; [reflexivity | apply HP, E].
  - rewrite lookup_alter_ne in Hc by assumption.
    apply Hk; [congruence | apply HP, Hc].
Qed.

Lemma alter_exists (Q : Closure -> Prop) (f : Closure -> Closure)
  (m : nat) (h : gmap nat Closure) :
  (∀ c, Q c -> Q (f c)) ->
  (∃ k c, h !! k = Some c /\ Q c) ->
  ∃ k c, alter f m h !! k = Some c /\ Q c.
Proof.
  intros Hf (k & c & Hc & HQ). destruct (decide (m = k)) as [->|Hne].
  - exists k, (f c). rewrite lookup_alter_eq, Hc. split; [reflexivity|auto].
  - exists k, c. rewrite lookup_alter_ne by assumption. auto.
Qed.

Lemma quiet_update mv : quiet (update_controls mv).
Proof. intros c. repeat split. Qed.

Lemma quiet_render :
  quiet (λ c, with_renderer (render (scene c) (camera c)) c).
Proof. intros c. repeat split. Qed.

Lemma upkeep_quiet f m w h' :
  quiet f -> h' = alter f m (heap w) ->
  upkeep w ->
  upkeep (mkWorld (mountRef w) (rendererRef w) (controlsRef w)
            (animationFrameRef w) (loading w) (error w) h' (next_id w)
            (raf w) (next_raf w) (console w) (devicePixelRatio w) (destroy w)).
Proof.
  intros Hq -> [Hf Hd Hc Hon Hoff He]. split; simpl.
  - apply (alter_forall (λ k _, k < next_id w)); auto.
  - apply (alter_forall
             (λ k c, (destroy w = Some k ->
                      r_disposed (renderer c) = false
                      /\ c_disposed (controls c) = false)
                     /\ (destroy w ≠ Some k ->
                         r_disposed (renderer c) = true
                         /\ c_disposed (controls c) = true))); auto.
    intros c _ H. destruct (Hq c) as (_ & _ & _ & _ & _ & _ & E1 & E2).
    rewrite E1, E2. exact H.
  - apply (alter_forall
             (λ _ c, fov (camera c) = 75%R
                     /\ aspect (camera c)
                        = (width (props c) / height (props c))%R
                     /\ (load c ≠ Loaded ->
                         near (camera c) = 0.1%R /\ far (camera c) = 1000%R)));
      auto.
    intros c _ H. destruct (Hq c) as (E1 & E2 & E3 & E4 & E5 & E6 & _).
    rewrite E1, E2, E3, E4, E5, E6. exact H.
  - intros Hl. apply (alter_forall (λ _ c, load c = Pending)); auto.
    + apply Hon, Hl.
    + intros c _ H. destruct (Hq c) as (E1 & _). rewrite E1. exact H.
  - intros Hl. apply alter_exists; [|apply Hoff, Hl].
    intros c H. destruct (Hq c) as (E1 & _). rewrite E1. exact H.
  - destruct He as [[E Hn]|[E Hx]]; [left|right]; (split; [exact E|]).
    + apply (alter_forall (λ _ c, load c ≠ Failed)); auto.
      intros c _ H. destruct (Hq c) as (E1 & _). rewrite E1. exact H.
    + apply alter_exists; auto.
      intros c H. destruct (Hq c) as (E1 & _). rewrite E1. exact H.
Qed.

Lemma upkeep_transport w w' :
  heap w' = heap w -> next_id w' = next_id w -> destroy w' = destroy w ->
  loading w' = loading w -> error w' = error w ->
  upkeep w -> upkeep w'.
Proof.
  intros Eh En Ed El Ee [Hf Hd Hc Hon Hoff He].
  split; rewrite ?Eh, ?En, ?Ed, ?El, ?Ee; assumption.
Qed.

Lemma upkeep_modify f m w : quiet f -> upkeep w -> upkeep (modify m f w).
Proof. intros Hq H. exact (upkeep_quiet f m w _ Hq eq_refl H). Qed.

Lemma upkeep_animate m mv w : upkeep w -> upkeep (animate m mv w).
Proof.
  intros H.
  assert (H1 : upkeep (match controlsRef w with
                       | Some k => modify k (update_controls mv) w
                       | None => w
                       end)).
  { destruct (controlsRef w); [apply upkeep_modify; [apply quiet_update|]|];
      exact H. }
  apply (upkeep_modify _ m _ quiet_render) in H1.
  revert H1. apply upkeep_transport; reflexivity.
Qed.

Lemma upkeep_effect p w w' :
  invariant w -> upkeep w ->
  dispatch (RunEffect p) w = Some (Ok w') -> upkeep w'.
Proof.
  intros [Hidle _ _] Hup Hd. simpl in Hd.
  destruct (destroy w) eqn:Ed; [discriminate|].
  destruct (Hidle eq_refl) as (Hr & _ & _ & Hk).
  destruct (mountRef w) as [kids|] eqn:Em.
  2:{ rewrite (initialize_detached p w Em) in Hd. simpl in Hd.
      injection Hd as <-. revert Hup. apply upkeep_transport; auto. }
  rewrite (initialize_idle p w kids Em Hr) in Hd. simpl in Hd.
  injection Hd as <-. destruct Hup as [Hf Hdis Hc Hon Hoff He].
  assert (Hnew : ∀ k c,
             <[next_id w := drawn (newClosure p (devicePixelRatio w))]>
               (heap w) !! k = Some c ->
             (k = next_id w /\ c = drawn (newClosure p (devicePixelRatio w)))
             \/ (k ≠ next_id w /\ heap w !! k = Some c)).
  { intros k c H. destruct (decide (next_id w = k)) as [<-|Hne].
    - rewrite lookup_insert_eq in H. injection H as <-. left. auto.
    - rewrite lookup_insert_ne in H by assumption. right. auto. }
  assert (Hold : ∀ k c, heap w !! k = Some c ->
             <[next_id w := drawn (newClosure p (devicePixelRatio w))]>
               (heap w) !! k = Some c).
  { intros k c H. rewrite lookup_insert_ne; [exact H|].
    apply Hf in H. lia. }
  split; simpl.
  - intros k c H. destruct (Hnew k c H) as [[-> _]|[_ H']]; [lia|].
    apply Hf in H'. lia.
  - intros k c H. destruct (Hnew k c H) as [[-> ->]|[Hne H']].
    + split; [intros _; split; reflexivity | congruence].
    + split; [congruence|]. intros _.
      apply (Hdis k c H'). rewrite Ed. discriminate.
  - intros k c H. destruct (Hnew k c H) as [[-> ->]|[Hne H']].
    + repeat split.
    + apply (Hc k c H').
  - intros Hl k c H. destruct (Hnew k c H) as [[-> ->]|[Hne H']].
    + reflexivity.
    + apply (Hon Hl k c H').
  - intros Hl. destruct (Hoff Hl) as (k & c & H & Hp).
    exists k, c. split; [apply Hold, H | exact Hp].
  - destruct He as [[E Hn]|[E (k & c & H & Hx)]]; [left|right];
      (split; [exact E|]).
    + intros k c H. destruct (Hnew k c H) as [[-> ->]|[Hne H']].
      * discriminate.
      * apply (Hn k c H').
    + exists k, c. split; [apply Hold, H | exact Hx].
Qed.

Lemma upkeep_cleanup w w' :
  invariant w -> upkeep w ->
  dispatch RunCleanup w = Some (Ok w') -> upkeep w'.
Proof.
  intros [_ Hlive _] Hup Hd. simpl in Hd.
  destruct (destroy w) as [n|] eqn:Ed; [|discriminate].
  destruct (Hlive n eq_refl) as (Hr & Hk & _).
  rewrite teardown_eq in Hd. simpl in Hd. injection Hd as <-.
  assert (Hh : heap (set_destroy None (torn n w))
               = alter released n (heap w)).
  { unfold torn; simpl. rewrite Hr, Hk. rewrite !alter_alter_eq.
    reflexivity. }
  destruct Hup as [Hf Hdis Hc Hon Hoff He].
  split; rewrite ?Hh; simpl.
  - apply (alter_forall (λ k _, k < next_id w)); auto.
  - apply (alter_forall
             (λ k c, (destroy w = Some k ->
                      r_disposed (renderer c) = false
                      /\ c_disposed (controls c) = false)
                     /\ (destroy w ≠ Some k ->
                         r_disposed (renderer c) = true
                         /\ c_disposed (controls c) = true))); auto.
    + intros c _ _. split; [discriminate|]. intros _. split; reflexivity.
    + intros k c Hne [_ H]. split; [discriminate|]. intros _.
      apply H. rewrite Ed. congruence.
  - apply (alter_forall
             (λ _ c, fov (camera c) = 75%R
                     /\ aspect (camera c)
                        = (width (props c) / height (props c))%R
                     /\ (load c ≠ Loaded ->
                         near (camera c) = 0.1%R /\ far (camera c) = 1000%R)));
      auto.
  - intros Hl.
    apply (alter_forall (λ _ c, load c = Pending) _ _ _ _ (Hon Hl)); auto.
  - intros Hl. apply alter_exists; [auto | apply Hoff, Hl].
  - destruct He as [[E Hn]|[E Hx]]; [left|right]; (split; [exact E|]).
    + apply (alter_forall (λ _ c, load c ≠ Failed)); auto.
    + apply alter_exists; auto.
Qed.

Lemma upkeep_success n g w :
  pending n w = true -> upkeep w -> upkeep (onLoad n g w).
Proof.
  intros Hp [Hf Hdis Hc Hon Hoff He]. rewrite onLoad_eq.
  apply pending_lookup in Hp as (c0 & Hc0 & Hl0).
  split; simpl.
  - apply (alter_forall (λ k _, k < next_id w)); auto.
  - apply (alter_forall
             (λ k c, (destroy w = Some k ->
                      r_disposed (renderer c) = false
                      /\ c_disposed (controls c) = false)
                     /\ (destroy w ≠ Some k ->
                         r_disposed (renderer c) = true
                         /\ c_disposed (controls c) = true))); auto.
  - apply (alter_forall
             (λ _ c, fov (camera c) = 75%R
                     /\ aspect (camera c)
                        = (width (props c) / height (props c))%R
                     /\ (load c ≠ Loaded ->
                         near (camera c) = 0.1%R /\ far (camera c) = 1000%R)));
      auto.
    intros c _ (H1 & H2 & _).
    repeat split; try assumption; exfalso; auto.
  - intros [=].
  - intros _. exists n, (loaded g c0).
    rewrite lookup_alter_eq, Hc0. split; [reflexivity | discriminate].
  - destruct He as [[E Hn]|[E (k & c & H & Hx)]]; [left|right];
      (split; [exact E|]).
    + apply (alter_forall (λ _ c, load c ≠ Failed)); auto.
    + exists k, c. split; [|exact Hx].
      rewrite lookup_alter_ne; [exact H|]. intros <-.
      rewrite Hc0 in H. injection H as <-. congruence.
Qed.

Lemma upkeep_failure n e w :
  pending n w = true -> upkeep w -> upkeep (onError n e w).
Proof.
  intros Hp [Hf Hdis Hc Hon Hoff He]. rewrite onError_eq.
  apply pending_lookup in Hp as (c0 & Hc0 & Hl0).
  split; simpl.
  - apply (alter_forall (λ k _, k < next_id w)); auto.
  - apply (alter_forall
             (λ k c, (destroy w = Some k ->
                      r_disposed (renderer c) = false
                      /\ c_disposed (controls c) = false)
                     /\ (destroy w ≠ Some k ->
                         r_disposed (renderer c) = true
                         /\ c_disposed (controls c) = true))); auto.
  - apply (alter_forall
             (λ _ c, fov (camera c) = 75%R
                     /\ aspect (camera c)
                        = (width (props c) / height (props c))%R
                     /\ (load c ≠ Loaded ->
                         near (camera c) = 0.1%R /\ far (camera c) = 1000%R)));
      auto.
    intros c Hcn (H1 & H2 & H3).
    split; [exact H1|]. split; [exact H2|]. intros _. apply H3.
    rewrite Hc0 in Hcn. injection Hcn as <-. congruence.
  - intros [=].
  - intros _. exists n, (with_load Failed c0).
    rewrite lookup_alter_eq, Hc0. split; [reflexivity | discriminate].
  - right. split; [reflexivity|]. exists n, (with_load Failed c0).
    rewrite lookup_alter_eq, Hc0. split; reflexivity.
Qed.

Lemma dispatch_upkeep ev w w' :
  invariant w -> upkeep w -> dispatch ev w = Some (Ok w') -> upkeep w'.
Proof.
  intros Hinv Hup Hd. destruct ev as [p| | |id mv|k mv|l t|n g|n e].
  - eapply upkeep_effect; eassumption.
  - eapply upkeep_cleanup; eassumption.
  - simpl in Hd. injection Hd as <-. revert Hup.
    apply upkeep_transport; reflexivity.
  - simpl in Hd. destruct (raf w !! id) as [m|]; [|discriminate].
    injection Hd as <-. apply upkeep_animate. revert Hup.
    apply upkeep_transport; reflexivity.
  - simpl in Hd. destruct (heap w !! k) as [c|]; [|discriminate].
    destruct (c_disposed (controls c)); [discriminate|].
    injection Hd as <-. apply upkeep_modify; [apply quiet_update | exact Hup].
  - simpl in Hd. injection Hd as <-. revert Hup.
    apply upkeep_transport; reflexivity.
  - simpl in Hd. destruct (pending n w) eqn:Hp; [|discriminate].
    injection Hd as <-. apply upkeep_success; assumption.
  - simpl in Hd. destruct (pending n w) eqn:Hp; [|discriminate].
    injection Hd as <-. apply upkeep_failure; assumption.
Qed.

Lemma upkeep_mounted dpr : upkeep (mounted dpr).
Proof.
  split; simpl; try (intros n c H; rewrite lookup_empty in H; discriminate).
  - intros _ n c H. rewrite lookup_empty in H. discriminate.
  - intros [=].
  - left. split; [reflexivity|].
    intros n c H. rewrite lookup_empty in H. discriminate.
Qed.

Lemma run_upkeep evs w w' :
  invariant w -> upkeep w -> run evs w = Some (Ok w') -> upkeep w'.
Proof.
  revert w. induction evs as [|ev evs IH]; intros w Hinv Hup Hrun;
    simpl in Hrun.
  - injection Hrun as <-. exact Hup.
  - destruct (dispatch ev w) as [r|] eqn:Ed; [|discriminate].
    destruct (dispatch_invariant ev w r Hinv Ed) as (w1 & -> & Hinv1).
    apply (IH w1); [exact Hinv1 | | exact Hrun].
    exact (dispatch_upkeep ev w w1 Hinv Hup Ed).
Qed.

Lemma reachable_upkeep w : reachable w -> upkeep w.
Proof.
  intros (dpr & evs & Hrun).
  eapply run_upkeep;
    [apply invariant_mounted | apply upkeep_mounted | exact Hrun].
Qed.

End UpkeepKept.

(** ** More of the lifecycle, operation by operation *)

Section MoreOperations.
Import THREE Viewer Upkeep.

(** The effect body when a renderer is still held and its canvas is in
    the container. *)
Lemma initialize_held p w kids r :
  mountRef w = Some kids -> rendererRef w = Some r ->
  contains kids r = true ->
  initialize p w =
  Ok (mkWorld (Some (appendChild (filter (λ k, k ≠ r) kids) (next_id w)))
        (Some (next_id w)) (Some (next_id w)) (Some (next_raf w))
        (loading w) (error w)
        (<[next_id w := drawn (newClosure p (devicePixelRatio w))]>
           (alter (with_renderer dispose_renderer) r (heap w)))
        (S (next_id w))
        (<[next_raf w := next_id w]>
           (match animationFrameRef w with
            | Some id => delete id (raf w)
            | None => raf w
            end))
        (S (next_raf w)) (console w) (devicePixelRatio w) (destroy w),
      Some (next_id w)).
Proof.
  intros Hm Hr Hc. destruct w; simpl in *; subst.
  unfold initialize, removeChild; simpl. rewrite Hc; simpl.
  destruct animationFrameRef0; simpl;
    rewrite animate_live by reflexivity; simpl;
    rewrite alter_insert_eq; reflexivity.
Qed.

Lemma initialize_held_throws p w kids r :
  mountRef w = Some kids -> rendererRef w = Some r ->
  contains kids r = false ->
  initialize p w = Throw NotFoundError.
Proof.
  intros Hm Hr Hc. unfold initialize. rewrite Hm, Hr.
  unfold removeChild. rewrite Hc. reflexivity.
Qed.

(** Whatever the effect body returns, it has left the two state cells
    alone. *)
Lemma initialize_cells p w r :
  initialize p w = Ok r ->
  loading (fst r) = loading w /\ error (fst r) = error w.
Proof.
  intros H. destruct (mountRef w) as [kids|] eqn:Em.
  2:{ rewrite (initialize_detached p w Em) in H. injection H as <-. auto. }
  destruct (rendererRef w) as [r0|] eqn:Er.
  2:{ rewrite (initialize_idle p w kids Em Er) in H. injection H as <-. auto. }
  destruct (contains kids r0) eqn:Ec.
  - rewrite (initialize_held p w kids r0 Em Er Ec) in H. injection H as <-.
    auto.
  - rewrite (initialize_held_throws p w kids r0 Em Er Ec) in H. discriminate.
Qed.

Lemma filter_not_elem (kids : list nat) (r : nat) :
  r ∉ kids -> filter (λ k, k ≠ r) kids = kids.
Proof.
  induction kids as [|k kids IH]; intros H; [reflexivity|].
  rewrite filter_cons. destruct (decide (k ≠ r)) as [_|Heq].
  - f_equal. apply IH. intros Hin. apply H. right. exact Hin.
  - exfalso. apply H. destruct (decide (k = r)) as [->|Hne].
    + left.
    + contradiction.
Qed.

(** One event never raises the loading flag again and never clears or
    replaces a stored error by anything but the failure message. *)
Lemma dispatch_cells ev w w' :
  dispatch ev w = Some (Ok w') ->
  (loading w = false -> loading w' = false)
  /\ (∀ m, error w = Some m ->
           error w' = Some m \/ error w' = Some failureMessage).
Proof.
  intros Hd. destruct ev as [p| | |id mv|k mv|l t|n g|n e]; simpl in Hd.
  - destruct (destroy w); [discriminate|].
    destruct (initialize p w) as [r|x] eqn:Ei; simpl in Hd; [|discriminate].
    injection Hd as <-. destruct (initialize_cells p w r Ei) as [El Ee].
    simpl. rewrite El, Ee. auto.
  - destruct (destroy w) as [n|]; [|discriminate].
    rewrite teardown_eq in Hd. simpl in Hd. injection Hd as <-. simpl. auto.
  - injection Hd as <-. simpl. auto.
  - destruct (raf w !! id) as [m|]; [|discriminate]. injection Hd as <-.
    assert (E : loading (animate m mv (cancelAnimationFrame id w)) = loading w
                /\ error (animate m mv (cancelAnimationFrame id w)) = error w)
      by (unfold animate; simpl; destruct (controlsRef w); split; reflexivity).
    destruct E as [-> ->]. auto.
  - destruct (heap w !! k) as [c|]; [|discriminate].
    destruct (c_disposed (controls c)); [discriminate|].
    injection Hd as <-. simpl. auto.
  - injection Hd as <-. simpl. auto.
  - destruct (pending n w); [|discriminate]. injection Hd as <-. simpl. auto.
  - destruct (pending n w); [|discriminate]. injection Hd as <-. simpl. auto.
Qed.

End MoreOperations.

(** ** Properties of the lifecycle *)

Section LifecycleProperties.
Import THREE Fit Viewer Upkeep.

(** X5.  The frame queue follows the live run.  In every execution a
    requested frame belongs to the live run and its id is the one in
    [animationFrameRef]; while a run is live exactly one frame is
    requested; with no live run none is: a torn-down run never draws
    again. *)
Theorem frame_queue_follows_live_run (w : World) :
  reachable w ->
  (∀ id m, raf w !! id = Some m ->
           destroy w = Some m /\ animationFrameRef w = Some id)
  /\ (∀ n, destroy w = Some n ->
           ∃ f, animationFrameRef w = Some f /\ raf w = {[ f := n ]})
  /\ (destroy w = None -> raf w = ∅).
Proof.
  intros Hr. apply reachable_invariant in Hr as [Hidle Hlive _].
  split; [|split].
  - intros id m H. destruct (destroy w) as [n|] eqn:Ed.
    + destruct (Hlive n eq_refl) as (_ & _ & (f & Ha & Hq) & _).
      rewrite Hq in H. apply lookup_singleton_Some in H as [<- <-]. auto.
    + destruct (Hidle eq_refl) as (_ & _ & Hq & _).
      rewrite Hq, lookup_empty in H. discriminate.
  - intros n Hd. apply (Hlive n Hd).
  - intros Hd. apply (Hidle Hd).
Qed.

Lemma frame_queue_follows_live_run_witness :
  reachable liveWorld
  /\ (∀ id m, raf liveWorld !! id = Some m ->
              destroy liveWorld = Some m
              /\ animationFrameRef liveWorld = Some id)
  /\ (∀ n, destroy liveWorld = Some n ->
           ∃ f, animationFrameRef liveWorld = Some f
                /\ raf liveWorld = {[ f := n ]})
  /\ (destroy liveWorld = None -> raf liveWorld = ∅).
Proof.
  assert (H1 : reachable liveWorld)
    by (exists 1%R, [RunEffect demoProps]; vm_compute; reflexivity).
  split; [exact H1|].
  exact (frame_queue_follows_live_run liveWorld H1).
Defined.

(** X6.  Only the live run holds a renderer and controls.  In every
    execution the renderer and the controls of the live run are not
    disposed, and those of every other run that was ever started are. *)
Theorem only_live_run_holds_resources (w : World) (n : nat) (c : Closure) :
  reachable w ->
  heap w !! n = Some c ->
  (destroy w = Some n ->
     r_disposed (renderer c) = false /\ c_disposed (controls c) = false)
  /\ (destroy w ≠ Some n ->
        r_disposed (renderer c) = true /\ c_disposed (controls c) = true).
Proof.
  intros Hr Hc. apply reachable_upkeep in Hr as [_ Hd _ _ _ _].
  apply (Hd n c Hc).
Qed.

Lemma only_live_run_holds_resources_witness :
  let w := after [RunEffect demoProps; RunCleanup; RunEffect demoProps] 1 in
  let c := released (drawn (newClosure demoProps 1)) in
  reachable w
  /\ heap w !! 0 = Some c
  /\ (destroy w = Some 0 ->
        r_disposed (renderer c) = false /\ c_disposed (controls c) = false)
  /\ (destroy w ≠ Some 0 ->
        r_disposed (renderer c) = true /\ c_disposed (controls c) = true).
Proof.
  intros w c.
  assert (H1 : reachable w)
    by (exists 1%R, [RunEffect demoProps; RunCleanup; RunEffect demoProps];
        vm_compute; reflexivity).
  assert (H2 : heap w !! 0 = Some c) by (vm_compute; reflexivity).
  split; [exact H1|]. split; [exact H2|].
  exact (only_live_run_holds_resources w 0 c H1 H2).
Defined.

(** X7.  In every execution, with any user input and any number of
    frames, every camera keeps its field of view of 75 degrees and the
    aspect [width / height] of its run's props, and until the request of
    the run succeeds it keeps the clipping planes 0.1 and 1000 it was
    built with: the controls move cameras, but only the success callback
    changes clipping planes, and nothing changes field of view or
    aspect. *)
Theorem camera_lens_fixed_until_success (w : World) (n : nat) (c : Closure) :
  reachable w ->
  heap w !! n = Some c ->
  fov (camera c) = 75%R
  /\ aspect (camera c) = (width (props c) / height (props c))%R
  /\ (load c ≠ Loaded ->
        near (camera c) = 0.1%R /\ far (camera c) = 1000%R).
Proof.
  intros Hr Hc. apply reachable_upkeep in Hr as [_ _ Hcam _ _ _].
  exact (Hcam n c Hc).
Qed.

Lemma camera_lens_fixed_until_success_witness :
  let orbit := λ p : Vector3, vec3 (z p) (y p) (- x p)%R in
  let w := after [RunEffect demoProps; Input 0 orbit; Frame 1 orbit] 1 in
  let c := drawnBy orbit (update_controls orbit (drawn (newClosure demoProps 1))) in
  reachable w
  /\ heap w !! 0 = Some c
  /\ fov (camera c) = 75%R
  /\ aspect (camera c) = (width (props c) / height (props c))%R
  /\ (load c ≠ Loaded ->
        near (camera c) = 0.1%R /\ far (camera c) = 1000%R).
Proof.
  intros orbit w c.
  assert (H1 : reachable w)
    by (exists 1%R, [RunEffect demoProps; Input 0 orbit; Frame 1 orbit];
        vm_compute; reflexivity).
  assert (H2 : heap w !! 0 = Some c) by (vm_compute; reflexivity).
  split; [exact H1|]. split; [exact H2|].
  exact (camera_lens_fixed_until_success w 0 c H1 H2).
Defined.

(** X8.  What the two state cells say.  In every execution the loading
    flag is up exactly as long as no request of any run has completed, the
    error cell is empty exactly as long as no request of any run has
    failed, and a stored error is the failure message. *)
Theorem state_cells_meaning (w : World) :
  reachable w ->
  (loading w = true <-> ∀ n c, heap w !! n = Some c -> load c = Pending)
  /\ (error w = None <-> ∀ n c, heap w !! n = Some c -> load c ≠ Failed)
  /\ (error w = None \/ error w = Some failureMessage).
Proof.
  intros Hr. apply reachable_upkeep in Hr as [_ _ _ Hon Hoff He].
  split; [|split].
  - split; [exact Hon|]. intros Hall.
    destruct (loading w) eqn:El; [reflexivity|].
    destruct (Hoff eq_refl) as (n & c & Hc & Hp).
    exfalso. apply Hp, (Hall n c Hc).
  - split.
    + intros E. destruct He as [[_ Hn]|[E' _]]; [exact Hn | congruence].
    + intros Hall. destruct He as [[E _]|[_ (n & c & Hc & Hf)]]; [exact E|].
      exfalso. exact (Hall n c Hc Hf).
  - destruct He as [[E _]|[E _]]; auto.
Qed.

Lemma state_cells_meaning_witness :
  reachable liveWorld
  /\ (loading liveWorld = true
      <-> ∀ n c, heap liveWorld !! n = Some c -> load c = Pending)
  /\ (error liveWorld = None
      <-> ∀ n c, heap liveWorld !! n = Some c -> load c ≠ Failed)
  /\ (error liveWorld = None \/ error liveWorld = Some failureMessage).
Proof.
  assert (H1 : reachable liveWorld)
    by (exists 1%R, [RunEffect demoProps]; vm_compute; reflexivity).
  split; [exact H1|].
  exact (state_cells_meaning liveWorld H1).
Defined.

(** X9.  The state cells are never reset.  Over any sequence of events,
    from any world: once the loading flag is down it stays down, also
    across re-initialisations, and a stored error is never cleared, so
    its overlay stays on screen. *)
Theorem state_cells_never_reset (evs : list Event) (w w' : World) :
  run evs w = Some (Ok w') ->
  (loading w = false -> loading w' = false)
  /\ (∀ m, error w = Some m ->
           error w' = Some m \/ error w' = Some failureMessage)
  /\ (error w = Some failureMessage ->
      In (ErrorOverlay failureMessage) (overlays w')).
Proof.
  revert w. induction evs as [|ev evs IH]; intros w Hrun; simpl in Hrun.
  - injection Hrun as <-. split; [auto|]. split; [auto|].
    intros E. unfold overlays. rewrite E. apply in_or_app. right. left.
    reflexivity.
  - destruct (dispatch ev w) as [[w1|x]|] eqn:Ed; try discriminate.
    destruct (dispatch_cells ev w w1 Ed) as [Hl He].
    destruct (IH w1 Hrun) as (Hl' & He' & Ho').
    split; [auto|]. split.
    + intros m E. destruct (He m E) as [E1|E1].
      * apply (He' m E1).
      * destruct (He' _ E1); auto.
    + intros E. apply Ho'. destruct (He _ E); assumption.
Qed.

Lemma state_cells_never_reset_witness :
  let w := onError 0 (HttpError 404) liveWorld in
  run [RunCleanup; RunEffect demoProps] w
  = Some (Ok (after [RunEffect demoProps; LoadFailure 0 (HttpError 404);
                     RunCleanup; RunEffect demoProps] 1))
  /\ (loading w = false ->
      loading (after [RunEffect demoProps; LoadFailure 0 (HttpError 404);
                      RunCleanup; RunEffect demoProps] 1) = false)
  /\ (∀ m, error w = Some m ->
           error (after [RunEffect demoProps; LoadFailure 0 (HttpError 404);
                         RunCleanup; RunEffect demoProps] 1) = Some m
           \/ error (after [RunEffect demoProps;
                            LoadFailure 0 (HttpError 404);
                            RunCleanup; RunEffect demoProps] 1)
              = Some failureMessage)
  /\ (error w = Some failureMessage ->
      In (ErrorOverlay failureMessage)
         (overlays (after [RunEffect demoProps;
                           LoadFailure 0 (HttpError 404);
                           RunCleanup; RunEffect demoProps] 1))).
Proof.
  intros w.
  assert (H1 : run [RunCleanup; RunEffect demoProps] w
               = Some (Ok (after [RunEffect demoProps;
                                  LoadFailure 0 (HttpError 404);
                                  RunCleanup; RunEffect demoProps] 1)))
    by (vm_compute; reflexivity).
  split; [exact H1|].
  exact (state_cells_never_reset _ _ _ H1).
Defined.

End LifecycleProperties.

Section CompositionProperties.
Import THREE Fit Viewer Upkeep Page.

(** X10.  Whenever a pending request succeeds, the loading flag goes
    down, the error cell is left as it was (so the overlay of an earlier
    failure stays next to the mesh), and the run's scene holds the mesh.
    If the run is the live one, the frame that is already requested draws
    the three lights followed by the mesh, through the fitted camera as
    the controls move it in that frame. *)
Theorem successful_load_outcome (w : World) (n : nat) (g : BufferGeometry) :
  reachable w ->
  pending n w = true ->
  let w' := onLoad n g w in
  dispatch (LoadSuccess n g) w = Some (Ok w')
  /\ loading w' = false
  /\ error w' = error w
  /\ overlays w'
     = match error w with
       | Some _ => [ErrorOverlay failureMessage]
       | None => []
       end
  /\ meshPresent n w' = true
  /\ (destroy w = Some n ->
      ∃ f c,
        heap w !! n = Some c
        /\ animationFrameRef w' = Some f
        /\ ∀ mv, ∃ w'' c'',
            dispatch (Frame f mv) w' = Some (Ok w'')
            /\ heap w'' !! n = Some c''
            /\ rendered (renderer c'')
               = Some (lights ++
                         [Mesh g
                               (mkMaterial (modelColor (props c)) 0x111111
                                           200%R)
                               (meshPosition g)],
                       moveCamera mv (fitCamera g (camera c)))).
Proof.
  intros Hr Hp w'.
  pose proof (reachable_invariant w Hr) as [_ Hlive _].
  pose proof (reachable_upkeep w Hr) as [_ _ _ _ _ He].
  pose proof Hp as Hp'. apply pending_lookup in Hp' as (c0 & Hc0 & Hl0).
  assert (Hnl : load c0 ≠ Loaded) by congruence.
  split; [simpl; rewrite Hp; reflexivity|].
  split; [reflexivity|]. split; [reflexivity|]. split.
  { unfold overlays. change (loading w') with false.
    change (error w') with (error w).
    destruct He as [[-> _]|[-> _]]; reflexivity. }
  split.
  { unfold meshPresent, w'. rewrite onLoad_lookup, Hc0. simpl.
    rewrite existsb_app. simpl. apply orb_true_r. }
  intros Hd.
  destruct (Hlive n Hd) as (_ & Hk & (f & Ha & Hq) & _ & _ & Hlights).
  exists f, c0. split; [exact Hc0|]. split; [exact Ha|]. intros mv.
  eexists. exists (drawnBy mv (loaded g c0)).
  assert (Hf : raf w' !! f = Some n)
    by (change (raf w') with (raf w); rewrite Hq; apply lookup_singleton_eq).
  split; [unfold dispatch; rewrite Hf; reflexivity|].
  rewrite animate_live by exact Hk. cbn [heap].
  change (heap (cancelAnimationFrame f w'))
    with (alter (loaded g) n (heap w)).
  rewrite !lookup_alter_eq, Hc0. split; [reflexivity|].
  simpl. rewrite (Hlights c0 Hc0 Hnl). reflexivity.
Qed.

Lemma successful_load_outcome_witness :
  reachable liveWorld
  /\ pending 0 liveWorld = true
  /\ let w' := onLoad 0 (cube origin 2) liveWorld in
     dispatch (LoadSuccess 0 (cube origin 2)) liveWorld = Some (Ok w')
     /\ loading w' = false
     /\ error w' = error liveWorld
     /\ overlays w'
        = match error liveWorld with
          | Some _ => [ErrorOverlay failureMessage]
          | None => []
          end
     /\ meshPresent 0 w' = true
     /\ (destroy liveWorld = Some 0 ->
         ∃ f c,
           heap liveWorld !! 0 = Some c
           /\ animationFrameRef w' = Some f
           /\ ∀ mv, ∃ w'' c'',
               dispatch (Frame f mv) w' = Some (Ok w'')
               /\ heap w'' !! 0 = Some c''
               /\ rendered (renderer c'')
                  = Some (lights ++
                            [Mesh (cube origin 2)
                                  (mkMaterial (modelColor (props c)) 0x111111
                                              200%R)
                                  (meshPosition (cube origin 2))],
                          moveCamera mv
                            (fitCamera (cube origin 2) (camera c)))).
Proof.
  assert (H1 : reachable liveWorld)
    by (exists 1%R, [RunEffect demoProps]; vm_compute; reflexivity).
  assert (H2 : pending 0 liveWorld = true) by (vm_compute; reflexivity).
  split; [exact H1|]. split; [exact H2|].
  exact (successful_load_outcome liveWorld 0 (cube origin 2) H1 H2).
Defined.

(** X11.  The effect body's own removal of a prior canvas is not guarded.
    If it is entered with a renderer still held, it throws
    [NotFoundError] when that renderer's canvas is not in the container;
    when it is, the old canvas is taken out, the new one is appended and
    the renderer ref points to the new run. *)
Theorem initialize_over_held_renderer (p : STLViewerProps) (w : World)
  (kids : list nat) (r : nat) :
  mountRef w = Some kids ->
  rendererRef w = Some r ->
  (r ∉ kids -> initialize p w = Throw NotFoundError)
  /\ (r ∈ kids ->
      ∃ w',
        initialize p w = Ok (w', Some (next_id w))
        /\ mountRef w'
           = Some (appendChild (filter (λ k, k ≠ r) kids) (next_id w))
        /\ rendererRef w' = Some (next_id w)
        /\ controlsRef w' = Some (next_id w)).
Proof.
  intros Hm Hr. split.
  - intros Hn. apply (initialize_held_throws p w kids r Hm Hr).
    apply bool_decide_eq_false. exact Hn.
  - intros Hin. eexists.
    rewrite (initialize_held p w kids r Hm Hr)
      by (apply contains_elem; exact Hin).
    split; [reflexivity|]. repeat split.
Qed.

Lemma initialize_over_held_renderer_witness :
  let w := set_mountRef (Some []) liveWorld in
  mountRef w = Some []
  /\ rendererRef w = Some 0
  /\ (0 ∉ @nil nat -> initialize demoProps w = Throw NotFoundError)
  /\ (0 ∈ @nil nat ->
      ∃ w',
        initialize demoProps w = Ok (w', Some (next_id w))
        /\ mountRef w'
           = Some (appendChild (filter (λ k, k ≠ 0) []) (next_id w))
        /\ rendererRef w' = Some (next_id w)
        /\ controlsRef w' = Some (next_id w)).
Proof.
  intros w.
  assert (H1 : mountRef w = Some []) by reflexivity.
  assert (H2 : rendererRef w = Some 0) by (vm_compute; reflexivity).
  split; [exact H1|]. split; [exact H2|].
  exact (initialize_over_held_renderer demoProps w [] 0 H1 H2).
Defined.

(** X12.  The cleanup never throws, in any state, and touches the
    container only to take out the canvas of the renderer it holds: every
    other child is kept, in order; if the canvas was already gone, or the
    ref is detached, or no renderer is held, the container is left as it
    is.  Both refs are null afterwards. *)
Theorem teardown_spares_other_children (n : nat) (w : World) :
  ∃ w1,
    teardown n w = Ok w1
    /\ mountRef w1
       = match rendererRef w with
         | Some r => filter (λ k, k ≠ r) <$> mountRef w
         | None => mountRef w
         end
    /\ rendererRef w1 = None
    /\ controlsRef w1 = None.
Proof.
  exists (torn n w). split; [apply teardown_eq|].
  split; [|split; reflexivity].
  unfold torn; simpl.
  destruct (rendererRef w) as [r|]; [|reflexivity].
  destruct (mountRef w) as [kids|]; [|reflexivity]. simpl.
  destruct (contains kids r) eqn:Ec; [reflexivity|].
  rewrite filter_not_elem; [reflexivity|].
  apply bool_decide_eq_false in Ec. exact Ec.
Qed.

(** X13.  Unmount.  From every world with a live run, detaching the ref
    and running the cleanup succeed and leave nothing behind: no ref
    holds anything, no frame is requested, the run's renderer and
    controls are disposed and its scene is empty.  An effect run after
    that changes nothing. *)
Theorem unmount_releases_run (w : World) (n : nat) :
  reachable w ->
  destroy w = Some n ->
  ∃ w1,
    run [DetachRef; RunCleanup] w = Some (Ok w1)
    /\ mountRef w1 = None
    /\ rendererRef w1 = None
    /\ controlsRef w1 = None
    /\ raf w1 = ∅
    /\ destroy w1 = None
    /\ (∃ c, heap w1 !! n = Some c
             /\ r_disposed (renderer c) = true
             /\ c_disposed (controls c) = true
             /\ children (scene c) = [])
    /\ ∀ p, dispatch (RunEffect p) w1 = Some (Ok w1).
Proof.
  intros Hr Hd.
  set (wd := set_mountRef None w).
  assert (H1 : dispatch DetachRef w = Some (Ok wd)) by reflexivity.
  pose proof (reachable_step _ _ _ Hr H1) as Hrd.
  set (w1 := set_destroy None (torn n wd)).
  assert (H2 : dispatch RunCleanup wd = Some (Ok w1)).
  { unfold dispatch. change (destroy wd) with (destroy w).
    rewrite Hd, teardown_eq. reflexivity. }
  pose proof (reachable_step _ _ _ Hrd H2) as Hr1.
  pose proof (reachable_invariant w1 Hr1) as [Hidle _ _].
  pose proof (reachable_upkeep w1 Hr1) as [_ Hdis _ _ _ _].
  pose proof (reachable_invariant w Hr) as [_ Hlive _].
  destruct (Hlive n Hd) as (_ & _ & _ & _ & (c & Hc) & _).
  destruct (torn_closure n wd c Hc) as (c1 & Hc1 & Hs & _).
  destruct (Hidle eq_refl) as (Hren & Hcon & Hq & _).
  assert (Hm : mountRef w1 = None).
  { unfold w1, torn, wd; simpl. destruct (rendererRef w); reflexivity. }
  exists w1.
  split; [rewrite (run_cons _ _ _ _ H1), (run_cons _ _ _ _ H2); reflexivity|].
  split; [exact Hm|]. split; [exact Hren|]. split; [exact Hcon|].
  split; [exact Hq|]. split; [reflexivity|]. split.
  - exists c1. split; [exact Hc1|].
    destruct (Hdis n c1 Hc1) as [_ Ht].
    destruct Ht as [Ht1 Ht2]; [discriminate|].
    repeat split; try assumption. rewrite Hs. reflexivity.
  - intros p. unfold dispatch. change (destroy w1) with (@None nat).
    rewrite (initialize_detached p w1 Hm). reflexivity.
Qed.

Lemma unmount_releases_run_witness :
  reachable liveWorld
  /\ destroy liveWorld = Some 0
  /\ ∃ w1,
      run [DetachRef; RunCleanup] liveWorld = Some (Ok w1)
      /\ mountRef w1 = None
      /\ rendererRef w1 = None
      /\ controlsRef w1 = None
      /\ raf w1 = ∅
      /\ destroy w1 = None
      /\ (∃ c, heap w1 !! 0 = Some c
               /\ r_disposed (renderer c) = true
               /\ c_disposed (controls c) = true
               /\ children (scene c) = [])
      /\ ∀ p, dispatch (RunEffect p) w1 = Some (Ok w1).
Proof.
  assert (H1 : reachable liveWorld)
    by (exists 1%R, [RunEffect demoProps]; vm_compute; reflexivity).
  assert (H2 : destroy liveWorld = Some 0) by (vm_compute; reflexivity).
  split; [exact H1|]. split; [exact H2|].
  exact (unmount_releases_run liveWorld 0 H1 H2).
Defined.

(** X14.  On either demo page, when the window is not 600 by 400, the
    page's measurement changes the viewer's [width] and [height] and the
    viewer is initialised a second time: the model file has then been
    requested twice and both requests are pending, since the first run
    was torn down (its renderer is disposed) without its request being
    cancelled.  The container holds the one canvas of the second run,
    whose renderer has the size of the window and whose camera has its
    aspect ratio.  When the window is 600 by 400 nothing changes and the
    first run stays the only one. *)
Theorem page_requests_model_twice (d : Demo) (dpr : R)
  (innerWidth innerHeight : Z) :
  (innerWidth ≠ 600 \/ innerHeight ≠ 400)%Z ->
  (∃ w c0 c1,
     run (pageEvents d innerWidth innerHeight) (mounted dpr) = Some (Ok w)
     /\ heap w !! 0 = Some c0
     /\ heap w !! 1 = Some c1
     /\ url (props c0) = demoUrl d /\ url (props c1) = demoUrl d
     /\ load c0 = Pending /\ load c1 = Pending
     /\ r_disposed (renderer c0) = true
     /\ r_disposed (renderer c1) = false
     /\ r_size (renderer c1) = (IZR innerWidth, IZR innerHeight)
     /\ aspect (camera c1) = (IZR innerWidth / IZR innerHeight)%R
     /\ mountRef w = Some [1]
     /\ rendererRef w = Some 1
     /\ loading w = true)
  /\ run (pageEvents d 600 400) (mounted dpr)
     = Some (Ok (firstWorld (viewerProps d initialPage) dpr)).
Proof.
  intros Hsize. split; [|vm_compute; reflexivity].
  assert (Hs : sameDeps initialPage (measure innerWidth innerHeight initialPage)
               = false).
  { unfold sameDeps, measure, initialPage; cbn [viewerWidth viewerHeight].
    apply andb_false_iff. destruct Hsize as [H|H]; [left|right];
      apply Z.eqb_neq; congruence. }
  unfold pageEvents. cbv zeta. rewrite Hs.
  exists (settled d dpr innerWidth innerHeight),
    (released (drawn (newClosure (viewerProps d initialPage) dpr))),
    (drawn (newClosure
              (viewerProps d (measure innerWidth innerHeight initialPage))
              dpr)).
  split; [vm_compute; reflexivity|].
  split; [vm_compute; reflexivity|].
  split; [vm_compute; reflexivity|].
  repeat split.
Qed.

Lemma page_requests_model_twice_witness :
  (1280 ≠ 600 \/ 720 ≠ 400)%Z
  /\ (∃ w c0 c1,
        run (pageEvents page 1280 720) (mounted 2) = Some (Ok w)
        /\ heap w !! 0 = Some c0
        /\ heap w !! 1 = Some c1
        /\ url (props c0) = demoUrl page /\ url (props c1) = demoUrl page
        /\ load c0 = Pending /\ load c1 = Pending
        /\ r_disposed (renderer c0) = true
        /\ r_disposed (renderer c1) = false
        /\ r_size (renderer c1) = (IZR 1280, IZR 720)
        /\ aspect (camera c1) = (IZR 1280 / IZR 720)%R
        /\ mountRef w = Some [1]
        /\ rendererRef w = Some 1
        /\ loading w = true)
  /\ run (pageEvents page 600 400) (mounted 2)
     = Some (Ok (firstWorld (viewerProps page initialPage) 2)).
Proof.
  assert (H : (1280 ≠ 600 \/ 720 ≠ 400)%Z) by (left; lia).
  split; [exact H|].
  exact (page_requests_model_twice page 2 1280 720 H).
Defined.

End CompositionProperties.

Section LoopProperties.
Import THREE Viewer Loop.

Lemma tick_live mv w n c :
  reachable w -> destroy w = Some n -> heap w !! n = Some c ->
  ∃ w', tick mv w = Some (Ok w')
        /\ reachable w' /\ destroy w' = Some n
        /\ heap w' !! n = Some (drawnBy mv c).
Proof.
  intros Hr Hd Hc.
  pose proof (reachable_invariant w Hr) as [_ Hlive _].
  destruct (Hlive n Hd) as (_ & Hk & (f & Ha & Hq) & _).
  assert (Hf : raf w !! f = Some n)
    by (rewrite Hq; apply lookup_singleton_eq).
  assert (Ht : dispatch (Frame f mv) w
               = Some (Ok (animate n mv (cancelAnimationFrame f w))))
    by (unfold dispatch; rewrite Hf; reflexivity).
  exists (animate n mv (cancelAnimationFrame f w)).
  split; [unfold tick; rewrite Ha; exact Ht|].
  split; [exact (reachable_step _ _ _ Hr Ht)|].
  rewrite animate_live by exact Hk. cbn [heap destroy].
  split; [exact Hd|].
  change (heap (cancelAnimationFrame f w)) with (heap w).
  rewrite lookup_alter_eq, Hc. reflexivity.
Qed.



(** X16.  The render loop keeps running.  While a run is live, any number
    of frames can fire one after the other, whatever the controls do to
    the camera's position in each of them; each frame updates the
    controls once and draws the run's current scene through its current
    camera.  None of them changes the scene, the camera's field of view,
    aspect ratio or clipping planes, or which run is live; the camera
    stands where the controls' movements have taken it, one after the
    other. *)
Theorem render_loop_keeps_running (mvs : list (Vector3 -> Vector3))
  (w : World) (n : nat) (c : Closure) :
  reachable w ->
  destroy w = Some n ->
  heap w !! n = Some c ->
  ∃ w' c',
    ticks mvs w = Some (Ok w')
    /\ destroy w' = Some n
    /\ heap w' !! n = Some c'
    /\ updates (controls c') = updates (controls c) + List.length mvs
    /\ scene c' = scene c
    /\ fov (camera c') = fov (camera c)
    /\ aspect (camera c') = aspect (camera c)
    /\ near (camera c') = near (camera c)
    /\ far (camera c') = far (camera c)
    /\ position (camera c') = moved mvs (position (camera c))
    /\ (mvs ≠ [] ->
        rendered (renderer c') = Some (children (scene c), camera c')).
Proof.
  revert w c. induction mvs as [|mv mvs IH]; intros w c Hr Hd Hc.
  - exists w, c. repeat split; try assumption; [simpl; lia | congruence].
  - destruct (tick_live mv w n c Hr Hd Hc) as (w1 & Ht & Hr1 & Hd1 & Hc1).
    destruct (IH w1 (drawnBy mv c) Hr1 Hd1 Hc1)
      as (w' & c' & Hk & Hd' & Hc' & Hu & Hs & Hfov & Hasp & Hnear & Hfar
          & Hpos & Hren).
    exists w', c'. cbn [ticks]. rewrite Ht.
    split; [exact Hk|]. split; [exact Hd'|]. split; [exact Hc'|].
    split; [rewrite Hu; simpl; lia|]. split; [exact Hs|].
    split; [exact Hfov|]. split; [exact Hasp|]. split; [exact Hnear|].
    split; [exact Hfar|]. split; [exact Hpos|]. intros _.
    destruct mvs as [|mv' mvs].
    + cbn [ticks] in Hk. injection Hk as <-.
      rewrite Hc1 in Hc'. injection Hc' as <-. reflexivity.
    + apply Hren. congruence.
Qed.

Lemma render_loop_keeps_running_witness :
  let c := drawn (newClosure demoProps 1) in
  let orbit := λ p : Vector3, vec3 (z p) (y p) (- x p) in
  let dolly := λ p : Vector3, multiplyScalar p 2 in
  let mvs := [orbit; dolly; orbit] in
  reachable liveWorld
  /\ destroy liveWorld = Some 0
  /\ heap liveWorld !! 0 = Some c
  /\ ∃ w' c',
      ticks mvs liveWorld = Some (Ok w')
      /\ destroy w' = Some 0
      /\ heap w' !! 0 = Some c'
      /\ updates (controls c') = updates (controls c) + List.length mvs
      /\ scene c' = scene c
      /\ fov (camera c') = fov (camera c)
      /\ aspect (camera c') = aspect (camera c)
      /\ near (camera c') = near (camera c)
      /\ far (camera c') = far (camera c)
      /\ position (camera c') = moved mvs (position (camera c))
      /\ (mvs ≠ [] ->
          rendered (renderer c') = Some (children (scene c), camera c')).
Proof.
  intros c orbit dolly mvs.
  assert (H1 : reachable liveWorld)
    by (exists 1%R, [RunEffect demoProps]; vm_compute; reflexivity).
  assert (H2 : destroy liveWorld = Some 0) by (vm_compute; reflexivity).
  assert (H3 : heap liveWorld !! 0 = Some c) by (vm_compute; reflexivity).
  split; [exact H1|]. split; [exact H2|]. split; [exact H3|].
  exact (render_loop_keeps_running mvs liveWorld 0 c H1 H2 H3).
Defined.

End LoopProperties.
